(** * Recipe catalogue service: search criteria, recipe validation, handlers

    A shallow embedding of the request handlers of the recipe service and
    of its AI helpers ([generateSearchParams], [generateRecipe]), together
    with the fragment of the document store and of the JavaScript runtime
    that those handlers rely on.

    Modelling conventions.
    - JavaScript strings are [string]s of 8-bit characters; the
      case-insensitive flag folds the ASCII letters only, and what is
      proved of case-insensitive matching is stated on ASCII strings.
    - The times and servings of a recipe are integers ([Z]); the rating
      of a review is any number ([jsnumber]): a rational, as every finite
      double is, an infinity or NaN.
    - A field that is absent from a request ([undefined]) is [None].
    - A collection is the list of its documents in natural (insertion) order;
      a cursor returns documents in that order.
    - An awaited call lives in the monad [M], which threads the database
      and an exception; a reply of the AI backend is an input of the
      handler that awaits it.
    - An identifier string is well formed when it has 24 hexadecimal
      digits. *)

From stdpp Require Import gmap strings list fin_maps.
From Stdlib Require Import ZArith QArith Ascii String.

Local Set Warnings "-register-all,-clear-no-such-hyp".

Local Open Scope string_scope.
Local Open Scope Z_scope.

(* ===================================================================== *)
(** ** Strings and characters *)
(* ===================================================================== *)

(** The characters of a string, first to last. *)
Definition chars (s : string) : list ascii := list_ascii_of_string s.

(** Simple case folding of one character (ASCII letters). *)
Definition to_lower (c : ascii) : ascii :=
  let n := nat_of_ascii c in
  if ((65 <=? n) && (n <=? 90))%nat then ascii_of_nat (n + 32) else c.

(** [String.prototype.split] with a one-character separator. The result is
    never empty: splitting the empty string gives one empty piece. *)
Fixpoint split_chars (sep : ascii) (s : list ascii) : list (list ascii) :=
  match s with
  | [] => [[]]
  | c :: s' =>
      if decide (c = sep) then [] :: split_chars sep s'
      else match split_chars sep s' with
           | piece :: rest => (c :: piece) :: rest
           | [] => [[c]]
           end
  end.

Definition split (sep : ascii) (s : string) : list string :=
  string_of_list_ascii <$> split_chars sep (chars s).

(** Truthiness of an optional string: [undefined] and [""] are falsy. *)
Definition truthy_string (o : option string) : bool :=
  match o with
  | Some s => negb (bool_decide (s = ""))
  | None => false
  end.

(** Truthiness of an optional number: [undefined] and [0] are falsy. *)
Definition truthy_number (o : option Z) : bool :=
  match o with
  | Some z => negb (z =? 0)
  | None => false
  end.

(** Truthiness of an optional array: every array, also the empty one, is
    truthy. *)
Definition truthy_array {A} (o : option (list A)) : bool :=
  match o with
  | Some _ => true
  | None => false
  end.

(* ===================================================================== *)
(** ** Regular expressions (the fragment the handlers can be traced on) *)
(* ===================================================================== *)

(** A pattern of the modelled fragment is a sequence of atoms: a literal
    character or the wildcard [.]. *)
Inductive atom :=
  | Lit (c : ascii)
  | Dot.

Record regexp := mkRegExp { source : list atom; ignoreCase : bool }.

(** The syntax characters of the pattern grammar. *)
Definition syntax_chars : list ascii := chars "^$\.*+?()[]{}|".

Definition syntax_char (c : ascii) : bool := bool_decide (c ∈ syntax_chars).

(** One pattern character: [.] is the wildcard, any other syntax character
    starts a construct outside the modelled fragment. *)
Definition parse_atom (c : ascii) : option atom :=
  if decide (c = "."%char) then Some Dot
  else if syntax_char c then None
  else Some (Lit c).

(** [new RegExp(pattern, 'i')] when [i] is [true]. [None] stands for a
    pattern outside the modelled fragment (the handlers are not traced on
    such patterns). *)
Definition RegExp (pattern : string) (i : bool) : option regexp :=
  atoms ← mapM parse_atom (chars pattern);
  Some (mkRegExp atoms i).

(** Line terminators, which the wildcard does not match. *)
Definition line_terminator (c : ascii) : bool :=
  bool_decide (c = "010"%char) || bool_decide (c = "013"%char).

Definition atom_match (i : bool) (a : atom) (c : ascii) : bool :=
  match a with
  | Lit l =>
      if i then bool_decide (to_lower l = to_lower c) else bool_decide (l = c)
  | Dot => negb (line_terminator c)
  end.

(** The pattern matches a prefix of the input. *)
Fixpoint match_here (i : bool) (r : list atom) (s : list ascii) : bool :=
  match r, s with
  | [], _ => true
  | a :: r', c :: s' => atom_match i a c && match_here i r' s'
  | _ :: _, [] => false
  end.

(** The pattern matches somewhere in the input (patterns are not anchored). *)
Fixpoint search (i : bool) (r : list atom) (s : list ascii) : bool :=
  match_here i r s ||
  match s with
  | [] => false
  | _ :: s' => search i r s'
  end.

Definition regexp_test (re : regexp) (s : string) : bool :=
  search (ignoreCase re) (source re) (chars s).

(** Case-insensitive containment, stated on the strings themselves: the
    folded [hay] splits around the folded [needle]. *)
Definition ci_contains (needle hay : string) : Prop :=
  ∃ pre post : list ascii,
    to_lower <$> chars hay = (pre ++ (to_lower <$> chars needle) ++ post)%list.

(** A string without syntax characters. *)
Definition literal_name (s : string) : Prop :=
  Forall (λ c, syntax_char c = false) (chars s).

(* ===================================================================== *)
(** ** Documents and collections *)
(* ===================================================================== *)

(** An [ObjectId] is its 96-bit value. *)
Definition ObjectId := N.

Definition hex_digit (c : ascii) : option N :=
  let n := N_of_ascii c in
  (if (48 <=? n) && (n <=? 57) then Some (n - 48)
   else if (97 <=? n) && (n <=? 102) then Some (n - 87)
   else if (65 <=? n) && (n <=? 70) then Some (n - 55)
   else None)%N.

(** [new ObjectId(s)] for a string [s]: 24 hexadecimal digits, read most
    significant first. [None] stands for the [BSONError] thrown on any
    other string. *)
Definition ObjectId_of_string (s : string) : option ObjectId :=
  if decide (List.length (chars s) = 24%nat) then
    digits ← mapM hex_digit (chars s);
    Some (foldl (λ acc d, 16 * acc + d)%N 0%N digits)
  else None.

(** A document of the [cuisines] or [tags] collection. [doc_extra] holds
    whatever other fields the seed data gave it. *)
Record doc := mkDoc {
  doc_id : ObjectId;
  doc_name : string;
  doc_extra : list (string * string)
}.

Record ingredient := mkIngredient {
  ing_name : string;
  ing_quantity : string;
  ing_unit : string
}.

(** A JavaScript number: a finite value, which is a rational, one of the
    two infinities (the text [1e999] parses to one), or NaN (which no
    JSON text denotes, and which [Number] makes of other strings). *)
Inductive jsnumber :=
  | Num (q : Q)
  | Inf (negative : bool)
  | NaN.

Record review := mkReview {
  review_id : ObjectId;
  review_user : string;
  review_rating : jsnumber;
  review_comment : string;
  review_date : Z
}.

(** A document of the [recipes] collection. The store has no schema: a
    field other than the identifier may be missing. An absent [tags] or
    [reviews] array and an empty one are both [[]]. *)
Record recipe := mkRecipe {
  r_id : ObjectId;
  r_name : option string;
  r_cuisine : option doc;
  r_prepTime : option Z;
  r_cookTime : option Z;
  r_servings : option Z;
  r_ingredients : option (list ingredient);
  r_instructions : option (list string);
  r_tags : list doc;
  r_reviews : list review
}.

(** The body of a create or update request, and the draft returned by the
    recipe extractor: the same eight fields, each possibly absent. *)
Record candidate := mkCandidate {
  c_name : option string;
  c_cuisine : option string;
  c_prepTime : option Z;
  c_cookTime : option Z;
  c_servings : option Z;
  c_ingredients : option (list ingredient);
  c_instructions : option (list string);
  c_tags : option (list string)
}.

(** The database [recipe_book]. *)
Record Db := mkDb {
  cuisines : list doc;
  tags : list doc;
  recipes : list recipe
}.

#[global] Instance Q_eq_dec : EqDecision Q.
Proof. solve_decision. Defined.
#[global] Instance jsnumber_eq_dec : EqDecision jsnumber.
Proof. solve_decision. Defined.
#[global] Instance doc_eq_dec : EqDecision doc.
Proof. solve_decision. Defined.
#[global] Instance ingredient_eq_dec : EqDecision ingredient.
Proof. solve_decision. Defined.
#[global] Instance review_eq_dec : EqDecision review.
Proof. solve_decision. Defined.
#[global] Instance recipe_eq_dec : EqDecision recipe.
Proof. solve_decision. Defined.

(* ===================================================================== *)
(** ** Query predicates of the document store *)
(* ===================================================================== *)

(** An element of an [$all] array: a string, matched by equality, or a
    regular expression, matched by search. *)
Inductive operand :=
  | OStr (s : string)
  | ORegex (re : regexp).

(** The condition put on one field path. *)
Inductive cond :=
  | C_regex (re : regexp)        (* { $regex: p, $options: "i" } *)
  | C_in (vs : list string)      (* { $in: [..] } *)
  | C_all (es : list operand).   (* { $all: [..] } *)

(** The strings found in a recipe at a dotted field path; a path through
    an array collects the field of every element. *)
Definition field_values (path : string) (r : recipe) : list string :=
  if decide (path = "name") then option_list (r_name r)
  else if decide (path = "cuisine.name") then
    option_list (doc_name <$> r_cuisine r)
  else if decide (path = "tags.name") then
    doc_name <$> r_tags r
  else if decide (path = "ingredients.name") then
    ing_name <$> default [] (r_ingredients r)
  else [].

Definition operand_match (e : operand) (v : string) : bool :=
  match e with
  | OStr s => bool_decide (s = v)
  | ORegex re => regexp_test re v
  end.

(** A condition holds of the values at a path. [$in] and [$regex] need one
    value that fits; [$all] needs, for every operand, a value that fits it,
    and an empty [$all] holds of nothing. *)
Definition eval_cond (c : cond) (vs : list string) : bool :=
  match c with
  | C_regex re => existsb (regexp_test re) vs
  | C_in xs => existsb (λ v, bool_decide (v ∈ xs)) vs
  | C_all es =>
      match es with
      | [] => false
      | _ => forallb (λ e, existsb (operand_match e) vs) es
      end
  end.

(** A criteria object maps field paths to conditions; a recipe satisfies
    it when every condition holds. The empty object is satisfied by every
    recipe. *)
Definition satisfies (criteria : gmap string cond) (r : recipe) : Prop :=
  map_Forall (λ path c, eval_cond c (field_values path r) = true) criteria.

#[global] Instance satisfies_dec criteria r : Decision (satisfies criteria r).
Proof. unfold satisfies. apply _. Defined.

(** [collection.find(criteria).toArray()] on a list of recipes. *)
Definition find_recipes (criteria : gmap string cond) (rs : list recipe)
  : list recipe :=
  filter (satisfies criteria) rs.

(* ===================================================================== *)
(** ** Filter Builder: the criteria of [GET /recipes/search] *)
(* ===================================================================== *)

(** The three query-string parameters, each possibly absent. *)
Record search_query := mkQuery {
  q_name : option string;
  q_tags : option string;
  q_ingredients : option string
}.

(** The criteria object built by the handler. A parameter that is absent
    or empty adds no key. [None] when a pattern is outside the modelled
    fragment of regular expressions. *)
Definition search_criteria (q : search_query) : option (gmap string cond) :=
  let criteria : gmap string cond := ∅ in
  criteria ←
    (if truthy_string (q_name q) then
       re ← RegExp (default "" (q_name q)) true;
       Some (<["name" := C_regex re]> criteria)
     else Some criteria);
  let criteria :=
    if truthy_string (q_tags q) then
      <["tags.name" := C_in (split ","%char (default "" (q_tags q)))]> criteria
    else criteria in
  if truthy_string (q_ingredients q) then
    regularExpressionArray ←
      mapM (λ ingredient, RegExp ingredient true)
           (split ","%char (default "" (q_ingredients q)));
    Some (<["ingredients.name" := C_all (ORegex <$> regularExpressionArray)]>
            criteria)
  else Some criteria.

(* ===================================================================== *)
(** ** The criteria of [GET /ai/recipes] *)
(* ===================================================================== *)

(** What the handler reads of the translator's reply; an array may be
    missing from the reply. *)
Record StructuredAIQuery := mkAIQuery {
  ai_cuisines : option (list string);
  ai_ingredients : option (list string);
  ai_tags : option (list string);
  userLanguage : option string
}.

(** [a && a.length > 0] *)
Definition non_empty {A} (o : option (list A)) : bool :=
  match o with
  | Some (_ :: _) => true
  | _ => false
  end.

Definition ai_search_criteria (searchParams : StructuredAIQuery)
  : gmap string cond :=
  let criteria : gmap string cond := ∅ in
  let criteria :=
    if non_empty (ai_cuisines searchParams) then
      <["cuisine.name" := C_in (default [] (ai_cuisines searchParams))]> criteria
    else criteria in
  let criteria :=
    if non_empty (ai_ingredients searchParams) then
      <["ingredients.name" :=
          C_all (OStr <$> default [] (ai_ingredients searchParams))]> criteria
    else criteria in
  if non_empty (ai_tags searchParams) then
    <["tags.name" := C_in (default [] (ai_tags searchParams))]> criteria
  else criteria.

(* ===================================================================== *)
(** ** Effects: the database and exceptions *)
(* ===================================================================== *)

Inductive exn :=
  | BSONError      (* a malformed identifier string *)
  | MongoError     (* the store refuses an operation *)
  | SyntaxError.   (* [JSON.parse] on text that is not JSON *)

Inductive outcome (A : Type) :=
  | Ok (a : A)
  | Throw (e : exn).
Arguments Ok {A} a.
Arguments Throw {A} e.

(** A computation reads and writes the database and returns or throws;
    writes made before a throw stay. *)
Definition M (A : Type) : Type := Db → outcome A * Db.

#[global] Instance M_ret : MRet M := λ A a db, (Ok a, db).

#[global] Instance M_bind : MBind M := λ A B f m db,
  match m db with
  | (Ok a, db') => f a db'
  | (Throw e, db') => (Throw e, db')
  end.

Definition throw {A} (e : exn) : M A := λ db, (Throw e, db).

Definition get_db : M Db := λ db, (Ok db, db).

Definition put_db (db' : Db) : M unit := λ _, (Ok tt, db').

(** [try { m } catch (e) { h e }] *)
Definition try_catch {A} (m : M A) (h : exn → M A) : M A := λ db,
  match m db with
  | (Throw e, db') => h e db'
  | r => r
  end.

(** [new ObjectId(s)] *)
Definition new_ObjectId (s : string) : M ObjectId :=
  match ObjectId_of_string s with
  | Some oid => mret oid
  | None => throw BSONError
  end.

(* ===================================================================== *)
(** ** Operations of the store *)
(* ===================================================================== *)

(** The first document of a list with a given name. *)
Definition first_named (name : string) (ds : list doc) : option doc :=
  head (filter (λ d, doc_name d = name) ds).

(** [collection.findOne({ name })] on a vocabulary collection: the first
    document with that exact name. An absent name finds nothing. *)
Definition findOne_name (coll : Db → list doc) (name : option string)
  : M (option doc) :=
  db ← get_db;
  mret (name ≫= λ n, first_named n (coll db)).

(** The documents of a list whose name is one of [names], in the order of
    the list. *)
Definition docs_named (names : list string) (ds : list doc) : list doc :=
  filter (λ d, doc_name d ∈ names) ds.

(** [collection.find({ name: { $in: names } }).toArray()]; the store
    refuses an [$in] that is not given an array. *)
Definition find_name_in (coll : Db → list doc) (names : option (list string))
  : M (list doc) :=
  match names with
  | Some ns => db ← get_db; mret (docs_named ns (coll db))
  | None => throw MongoError
  end.

(** [recipes.findOne({ _id })] *)
Definition findOne_recipe (oid : ObjectId) : M (option recipe) :=
  db ← get_db;
  mret (head (filter (λ r, r_id r = oid) (recipes db))).

Definition set_recipes (rs : list recipe) : M unit :=
  db ← get_db;
  put_db {| cuisines := cuisines db; tags := tags db; recipes := rs |}.

(** [recipes.insertOne(r)]: appended, unless the identifier is taken.
    Returns [insertedId]. *)
Definition insertOne (r : recipe) : M ObjectId :=
  db ← get_db;
  if decide (r_id r ∈ r_id <$> recipes db) then throw MongoError
  else set_recipes (recipes db ++ [r])%list;; mret (r_id r).

(** Apply [f] to the first recipe with identifier [oid]; the number of
    recipes matched (0 or 1) is returned with the new list. *)
Fixpoint update_first (oid : ObjectId) (f : recipe → recipe)
    (rs : list recipe) : nat * list recipe :=
  match rs with
  | [] => (0%nat, [])
  | r :: rs' =>
      if decide (r_id r = oid) then (1%nat, f r :: rs')
      else let '(n, rs'') := update_first oid f rs' in (n, r :: rs'')
  end.

(** [recipes.updateOne({ _id }, update)]; returns [matchedCount]. *)
Definition updateOne (oid : ObjectId) (update : recipe → recipe) : M nat :=
  db ← get_db;
  let '(matchedCount, rs) := update_first oid update (recipes db) in
  set_recipes rs;; mret matchedCount.

Fixpoint delete_first (oid : ObjectId) (rs : list recipe)
  : nat * list recipe :=
  match rs with
  | [] => (0%nat, [])
  | r :: rs' =>
      if decide (r_id r = oid) then (1%nat, rs')
      else let '(n, rs'') := delete_first oid rs' in (n, r :: rs'')
  end.

(** [recipes.deleteOne({ _id })]; returns [deletedCount]. *)
Definition deleteOne (oid : ObjectId) : M nat :=
  db ← get_db;
  let '(deletedCount, rs) := delete_first oid (recipes db) in
  set_recipes rs;; mret deletedCount.

(* ===================================================================== *)
(** ** Recipe Validator *)
(* ===================================================================== *)

Inductive validation_error :=
  | MissingFields
  | InvalidCuisine
  | InvalidTags.

(** The [error] string of a failed validation. *)
Definition error_message (e : validation_error) : string :=
  match e with
  | MissingFields => "Missing fields"
  | InvalidCuisine => "Invalid cuisine"
  | InvalidTags => "One or more tags is invalid"
  end.

(** The object [newRecipe]: no identifier yet, no reviews. *)
Record NormalizedRecipe := mkNormalized {
  n_name : option string;
  n_cuisine : doc;
  n_prepTime : option Z;
  n_cookTime : option Z;
  n_servings : option Z;
  n_ingredients : option (list ingredient);
  n_instructions : option (list string);
  n_tags : list doc
}.

(** [{ success: true, newRecipe, error: null }] or
    [{ success: false, error }]. *)
Inductive validation :=
  | Success (newRecipe : NormalizedRecipe)
  | Failure (error : validation_error).

(** The negation of the guard
    [!name || !cuisine || !ingredients || !instructions || !tags ||
     !prepTime || !cookTime || !servings]. *)
Definition all_present (c : candidate) : bool :=
  truthy_string (c_name c) && truthy_string (c_cuisine c) &&
  truthy_array (c_ingredients c) && truthy_array (c_instructions c) &&
  truthy_array (c_tags c) && truthy_number (c_prepTime c) &&
  truthy_number (c_cookTime c) && truthy_number (c_servings c).

(** The embedded copy [{ _id: cuisineDoc._id, name: cuisineDoc.name }]. *)
Definition snapshot (cuisineDoc : doc) : doc :=
  {| doc_id := doc_id cuisineDoc; doc_name := doc_name cuisineDoc;
     doc_extra := [] |}.

Definition validateRecipe (request : candidate) : M validation :=
  if negb (all_present request) then mret (Failure MissingFields)
  else
    cuisineDoc ← findOne_name cuisines (c_cuisine request);
    match cuisineDoc with
    | None => mret (Failure InvalidCuisine)
    | Some cuisineDoc =>
        tagDocs ← find_name_in tags (c_tags request);
        if negb (bool_decide
                   (List.length tagDocs =
                    List.length (default [] (c_tags request))))
        then mret (Failure InvalidTags)
        else mret (Success
               {| n_name := c_name request;
                  n_cuisine := snapshot cuisineDoc;
                  n_prepTime := c_prepTime request;
                  n_cookTime := c_cookTime request;
                  n_servings := c_servings request;
                  n_ingredients := c_ingredients request;
                  n_instructions := c_instructions request;
                  n_tags := tagDocs |})
    end.

(* ===================================================================== *)
(** ** Responses *)
(* ===================================================================== *)

Inductive payload :=
  | P_error (error : string)
  | P_message (message : string)
  | P_recipe (recipe : recipe)
  | P_created (message : string) (recipeId : ObjectId)
  | P_reviewed (message : string) (reviewId : ObjectId)
  | P_recipeId (recipeId : ObjectId).

Record response := mkResponse { status : nat; body : payload }.

(** [res.status(code).json(..)]; [res.json(..)] alone answers 200. *)
Definition respond (code : nat) (p : payload) : M response :=
  mret (mkResponse code p).

(* ===================================================================== *)
(** ** Handlers that take a record identifier *)
(* ===================================================================== *)

(** [GET /recipes/detail?id=..] *)
Definition recipes_detail (recipeId : string) : M response :=
  try_catch
    (oid ← new_ObjectId recipeId;
     recipe ← findOne_recipe oid;
     match recipe with
     | None => respond 404 (P_error "recipe not found.")
     | Some recipe => respond 200 (P_recipe recipe)
     end)
    (λ error,
       match error with
       | BSONError => respond 400 (P_error "Invalid recipe ID format.")
       | _ => respond 500 (P_error "Internal server error")
       end).

(** [POST /recipes/create]; [fresh] is the identifier made by
    [new ObjectId()]. *)
Definition recipes_create (request : candidate) (fresh : ObjectId)
  : M response :=
  if negb (all_present request) then
    respond 400 (P_error "Missing required fields")
  else
    cuisineDoc ← findOne_name cuisines (c_cuisine request);
    match cuisineDoc with
    | None => respond 400 (P_error "Error. Cuisine not found")
    | Some cuisineDoc =>
        tagDocs ← find_name_in tags (c_tags request);
        if negb (bool_decide
                   (List.length tagDocs =
                    List.length (default [] (c_tags request))))
        then respond 400 (P_error "One or more tags is invalid")
        else
          let newRecipe :=
            {| r_id := fresh;
               r_name := c_name request;
               r_cuisine := Some (snapshot cuisineDoc);
               r_prepTime := c_prepTime request;
               r_cookTime := c_cookTime request;
               r_servings := c_servings request;
               r_ingredients := c_ingredients request;
               r_instructions := c_instructions request;
               r_tags := tagDocs;
               r_reviews := [] |} in
          try_catch
            (insertedId ← insertOne newRecipe;
             respond 201 (P_created "Recipe created" insertedId))
            (λ _, respond 500 (P_error "Internal server error"))
    end.

(** [{ $set: newRecipe }]: the eight fields are overwritten, the
    identifier and the reviews stay. *)
Definition set_fields (newRecipe : NormalizedRecipe) (r : recipe) : recipe :=
  {| r_id := r_id r;
     r_name := n_name newRecipe;
     r_cuisine := Some (n_cuisine newRecipe);
     r_prepTime := n_prepTime newRecipe;
     r_cookTime := n_cookTime newRecipe;
     r_servings := n_servings newRecipe;
     r_ingredients := n_ingredients newRecipe;
     r_instructions := n_instructions newRecipe;
     r_tags := n_tags newRecipe;
     r_reviews := r_reviews r |}.

(** [PUT /recipes/update/:id] *)
Definition recipes_update (recipeId : string) (request : candidate)
  : M response :=
  try_catch
    (status ← validateRecipe request;
     match status with
     | Success newRecipe =>
         oid ← new_ObjectId recipeId;
         matchedCount ← updateOne oid (set_fields newRecipe);
         if decide (matchedCount = 0%nat) then
           respond 404 (P_error "Recipe not found")
         else respond 200 (P_message "Recipe has been updated successful")
     | Failure error => respond 400 (P_error (error_message error))
     end)
    (λ _, respond 500 (P_error "Internal server error")).

(** [DELETE /recipes/delete/:id] *)
Definition recipes_delete (recipeId : string) : M response :=
  try_catch
    (oid ← new_ObjectId recipeId;
     deletedCount ← deleteOne oid;
     if decide (deletedCount = 0%nat) then respond 404 (P_error "Not found")
     else respond 200 (P_message "Deleted successfully"))
    (λ _, respond 500 (P_error "Internal Server Error")).

(* ===================================================================== *)
(** ** Reviews *)
(* ===================================================================== *)

(** The [rating] of a review request: a JSON number, integer or
    fractional, or a JSON string. *)
Inductive rating_value :=
  | R_number (n : jsnumber)
  | R_string (s : string).

(** The body of a review request. *)
Record review_request := mkReviewRequest {
  b_user : option string;
  b_rating : option rating_value;
  b_comment : option string
}.

(** A number is falsy when it is zero or NaN, a string when it is
    empty. *)
Definition truthy_number_value (n : jsnumber) : bool :=
  match n with
  | Num q => negb (Qnum q =? 0)
  | Inf _ => true
  | NaN => false
  end.

Definition truthy_rating (o : option rating_value) : bool :=
  match o with
  | Some (R_number n) => truthy_number_value n
  | Some (R_string s) => negb (bool_decide (s = ""))
  | None => false
  end.

(** [{ $push: { reviews: newReview } }] *)
Definition push_review (newReview : review) (r : recipe) : recipe :=
  {| r_id := r_id r;
     r_name := r_name r;
     r_cuisine := r_cuisine r;
     r_prepTime := r_prepTime r;
     r_cookTime := r_cookTime r;
     r_servings := r_servings r;
     r_ingredients := r_ingredients r;
     r_instructions := r_instructions r;
     r_tags := r_tags r;
     r_reviews := (r_reviews r ++ [newReview])%list |}.

Section Reviews.

(** The conversion of a string to a number made by [Number]; it belongs
    to the language, not to this program. *)
Variable StringToNumber : string → jsnumber.

(** [Number(rating)]: a number is left as it is. *)
Definition Number (v : rating_value) : jsnumber :=
  match v with
  | R_number n => n
  | R_string s => StringToNumber s
  end.

(** [POST /recipes/:id/reviews]; [fresh] is the identifier made by
    [new ObjectId()] and [now] the time read by [new Date()]. *)
Definition recipes_reviews (recipeId : string) (request : review_request)
    (fresh : ObjectId) (now : Z) : M response :=
  try_catch
    (if negb (truthy_string (b_user request))
        || negb (truthy_rating (b_rating request))
        || negb (truthy_string (b_comment request))
     then respond 400 (P_error "Missing required fields")
     else
       (* in this branch the three fields are there: no default is used *)
       let newReview :=
         {| review_id := fresh;
            review_user := default "" (b_user request);
            review_rating :=
              Number (default (R_number NaN) (b_rating request));
            review_comment := default "" (b_comment request);
            review_date := now |} in
       oid ← new_ObjectId recipeId;
       matchedCount ← updateOne oid (push_review newReview);
       if decide (matchedCount = 0%nat) then
         respond 404 (P_error "Recipe not found")
       else
         respond 201
           (P_reviewed "Review added successfully" (review_id newReview)))
    (λ _, respond 500 (P_error "Internal server error")).

End Reviews.

(* ===================================================================== *)
(** ** The AI contracts *)
(* ===================================================================== *)

(** The text of a reply of the AI backend, as [JSON.parse] sees it: text
    that is not JSON, or the value that the text denotes. *)
Inductive ai_reply (A : Type) :=
  | Malformed
  | Parsed (value : A).
Arguments Malformed {A}.
Arguments Parsed {A} value.

Definition JSON_parse {A} (text : ai_reply A) : M A :=
  match text with
  | Malformed => throw SyntaxError
  | Parsed value => mret value
  end.

Inductive json :=
  | J_null
  | J_bool (b : bool)
  | J_number (z : Z)
  | J_string (s : string)
  | J_array (items : list json)
  | J_object (members : list (string * json)).

(** The fragment of JSON Schema used in the [responseJsonSchema] of the
    requests. *)
Inductive schema :=
  | S_string
  | S_number
  | S_array (items : schema)
  | S_object (properties : list (string * schema)) (required : list string).

(** The member of an object with a given key; of two members with the
    same key the later one counts. *)
Definition member (key : string) (members : list (string * json))
  : option json :=
  snd <$> head (filter (λ m, m.1 = key) (reverse members)).

(** A value conforms to a schema: the type fits, every required member is
    there, and every declared member that is there conforms. *)
Fixpoint validates (s : schema) (j : json) : bool :=
  match s, j with
  | S_string, J_string _ => true
  | S_number, J_number _ => true
  | S_array items, J_array js => forallb (validates items) js
  | S_object properties required, J_object members =>
      forallb (λ key, bool_decide (is_Some (member key members))) required &&
      forallb (λ p, match member p.1 members with
                    | Some j' => validates p.2 j'
                    | None => true
                    end) properties
  | _, _ => false
  end.

(** The [responseJsonSchema] sent by [generateSearchParams]. *)
Definition searchParams_schema : schema :=
  S_object
    [("ingredients", S_array S_string);
     ("tags", S_array S_string);
     ("cuisines", S_array S_string);
     ("userLanguage", S_string)]
    ["ingredients"; "tags"; "cuisines"; "userLanguage"].

(** [generateSearchParams]: the reply of the backend to the prompt, parsed
    and returned. *)
Definition generateSearchParams (aiResponse : ai_reply json) : M json :=
  searchParams ← JSON_parse aiResponse;
  mret searchParams.

(** [generateRecipe]: the reply of the backend, parsed and returned; the
    handler reads the draft's fields from it. *)
Definition generateRecipe (aiResponse : ai_reply candidate) : M candidate :=
  generatedRecipe ← JSON_parse aiResponse;
  mret generatedRecipe.

(** [POST /ai/recipes]; [fresh] is the identifier that the driver gives to
    the inserted document. The handler has no [try]: an exception escapes
    it. *)
Definition ai_recipes_post (aiResponse : ai_reply candidate)
    (fresh : ObjectId) : M response :=
  newRecipe ← generateRecipe aiResponse;
  cuisineDoc ← findOne_name cuisines (c_cuisine newRecipe);
  match cuisineDoc with
  | Some cuisineDoc =>
      tagDocs ← find_name_in tags (c_tags newRecipe);
      insertedId ← insertOne
        {| r_id := fresh;
           r_name := c_name newRecipe;
           r_cuisine := Some cuisineDoc;
           r_prepTime := c_prepTime newRecipe;
           r_cookTime := c_cookTime newRecipe;
           r_servings := c_servings newRecipe;
           r_ingredients := c_ingredients newRecipe;
           r_instructions := c_instructions newRecipe;
           r_tags := tagDocs;
           r_reviews := [] |};
      respond 200 (P_recipeId insertedId)
  | None =>
      respond 404 (P_error "AI tried to use a cuisine that doesn't exist")
  end.

(* ===================================================================== *)
(** ** The Filter Builder as the specification words it *)
(* ===================================================================== *)

(** The predicate of [buildCriteria(nameText?, tagNames?, ingredientNames?)]:
    a given name text must be contained, case-insensitively, in the
    recipe's name; a non-empty set of tag names must meet the recipe's tag
    names; every name of a non-empty set of ingredient names must be
    contained, case-insensitively, in the name of some ingredient. *)
Definition buildCriteria_spec (nameText : option string)
    (tagNames ingredientNames : list string) (r : recipe) : Prop :=
  (∀ text, nameText = Some text →
     ∃ name, r_name r = Some name ∧ ci_contains text name) ∧
  (tagNames ≠ [] → ∃ t, t ∈ r_tags r ∧ doc_name t ∈ tagNames) ∧
  (ingredientNames ≠ [] →
     ∀ name, name ∈ ingredientNames →
       ∃ ing, ing ∈ default [] (r_ingredients r) ∧
              ci_contains name (ing_name ing)).

(** A query parameter as the specification sees it: given, or not. *)
Definition given (o : option string) : option string :=
  if truthy_string o then o else None.

Definition given_list (o : option string) : list string :=
  if truthy_string o then split ","%char (default "" o) else [].

(** The predicate of the natural-language search, clause by clause: the
    recipe's cuisine is one of the cuisines, every ingredient name is the
    name of an ingredient of the recipe, some tag of the recipe is one of
    the tags; a clause counts only when its array is there and not empty. *)
Definition ai_predicate (searchParams : StructuredAIQuery) (r : recipe)
  : Prop :=
  (non_empty (ai_cuisines searchParams) = true →
     ∃ c, r_cuisine r = Some c ∧
          doc_name c ∈ default [] (ai_cuisines searchParams)) ∧
  (non_empty (ai_ingredients searchParams) = true →
     ∀ name, name ∈ default [] (ai_ingredients searchParams) →
       ∃ ing, ing ∈ default [] (r_ingredients r) ∧ ing_name ing = name) ∧
  (non_empty (ai_tags searchParams) = true →
     ∃ t, t ∈ r_tags r ∧ doc_name t ∈ default [] (ai_tags searchParams)).

(* ===================================================================== *)
(** ** Fixtures *)
(* ===================================================================== *)

(** A recipe that has only ingredients of the given names. *)
Definition recipe_with (oid : ObjectId) (names : list string) : recipe :=
  {| r_id := oid;
     r_name := Some "Dish";
     r_cuisine := None;
     r_prepTime := Some 10;
     r_cookTime := Some 20;
     r_servings := Some 2;
     r_ingredients := Some ((λ n, mkIngredient n "1" "") <$> names);
     r_instructions := Some ["Cook."];
     r_tags := [];
     r_reviews := [] |}.

Definition chicken_garlic_salt : recipe :=
  recipe_with 1%N ["chicken breast"; "garlic"; "salt"].

Definition chicken_onion : recipe := recipe_with 2%N ["chicken"; "onion"].

Definition chicken_breast : recipe := recipe_with 3%N ["chicken breast"].

Definition thai : doc := mkDoc 100%N "Thai" [("region", "Southeast Asia")].
Definition italian : doc := mkDoc 101%N "Italian" [].
Definition quick : doc := mkDoc 200%N "quick" [].
Definition spicy : doc := mkDoc 201%N "spicy" [].
Definition vegan : doc := mkDoc 202%N "vegan" [].

Definition fixture_db : Db :=
  {| cuisines := [thai; italian];
     tags := [quick; spicy; vegan];
     recipes := [chicken_garlic_salt; chicken_onion] |}.

(** The request of the creation scenario, with two tags asked for in the
    order spicy, quick. *)
Definition tom_yum : candidate :=
  {| c_name := Some "Tom Yum";
     c_cuisine := Some "Thai";
     c_prepTime := Some 10;
     c_cookTime := Some 20;
     c_servings := Some 2;
     c_ingredients := Some [mkIngredient "shrimp" "200" "g"];
     c_instructions := Some ["Boil stock."];
     c_tags := Some ["spicy"; "quick"] |}.

(** The same request with another cuisine or other tags. *)
Definition with_cuisine (cuisine : string) (c : candidate) : candidate :=
  {| c_name := c_name c;
     c_cuisine := Some cuisine;
     c_prepTime := c_prepTime c;
     c_cookTime := c_cookTime c;
     c_servings := c_servings c;
     c_ingredients := c_ingredients c;
     c_instructions := c_instructions c;
     c_tags := c_tags c |}.

Definition with_tags (names : list string) (c : candidate) : candidate :=
  {| c_name := c_name c;
     c_cuisine := c_cuisine c;
     c_prepTime := c_prepTime c;
     c_cookTime := c_cookTime c;
     c_servings := c_servings c;
     c_ingredients := c_ingredients c;
     c_instructions := c_instructions c;
     c_tags := Some names |}.

(** A draft of the extractor with a tag that is not in the tags
    collection. *)
Definition unicorn_draft : candidate := with_tags ["spicy"; "unicorn"] tom_yum.

(** A reply of the translator with every array empty. *)
Definition empty_reply : json :=
  J_object
    [("ingredients", J_array []);
     ("tags", J_array []);
     ("cuisines", J_array []);
     ("userLanguage", J_string "English")].

(** The first example output of the translator's prompt: two of the four
    fields. *)
Definition prompt_example_reply : json :=
  J_object
    [("cuisines", J_array [J_string "Italian"]);
     ("ingredients", J_array [J_string "chicken"; J_string "garlic"])].

(** A review request with a finite numeric rating. *)
Definition rated (q : Q) : review_request :=
  {| b_user := Some "ana";
     b_rating := Some (R_number (Num q));
     b_comment := Some "Good." |}.

(** A string of ASCII characters. The case folding of this development
    is that of the ASCII letters, and on such strings it is the folding
    of the pattern matcher; statements about case-insensitive matching
    are made on them. *)
Definition ascii_char (c : ascii) : bool := (N_of_ascii c <? 128)%N.

Definition ascii_name (s : string) : Prop :=
  Forall (λ c, ascii_char c = true) (chars s).

(** A recipe whose name and ingredient names are ASCII. *)
Definition ascii_recipe (r : recipe) : Prop :=
  (∀ name, r_name r = Some name → ascii_name name) ∧
  Forall (λ ing, ascii_name (ing_name ing)) (default [] (r_ingredients r)).

(* ===================================================================== *)
(** ** What a computation keeps *)
(* ===================================================================== *)

(** A relation between the database before and the database after that
    holds of every run of a computation, whether it returns or throws. *)
Definition preserves {A} (R : Db → Db → Prop) (m : M A) : Prop :=
  ∀ db, R db (m db).2.

(** The vocabulary collections are the same. *)
Definition same_vocabulary (db db' : Db) : Prop :=
  cuisines db' = cuisines db ∧ tags db' = tags db.

(** The identifiers of the stored recipes. *)
Definition recipe_ids (db : Db) : list ObjectId := r_id <$> recipes db.

(** Distinct identifiers stay distinct. *)
Definition ids_stay_distinct (db db' : Db) : Prop :=
  NoDup (recipe_ids db) → NoDup (recipe_ids db').

(** Every embedded cuisine and tag of a recipe is a document of the
    vocabulary. *)
Definition references_vocabulary (db : Db) (r : recipe) : Prop :=
  (∀ c, r_cuisine r = Some c →
        ∃ d, d ∈ cuisines db ∧ doc_id d = doc_id c ∧ doc_name d = doc_name c) ∧
  (∀ t, t ∈ r_tags r → t ∈ tags db).


(* ===================================================================== *)
(** ** The structured search, whole *)
(* ===================================================================== *)

(** What the projection [{ name: 1, cuisine: 1, tags: 1, prepTime: 1 }]
    leaves of a recipe; the identifier is always kept. *)
Record recipe_summary := mkSummary {
  s_id : ObjectId;
  s_name : option string;
  s_cuisine : option doc;
  s_tags : list doc;
  s_prepTime : option Z
}.

Definition project (r : recipe) : recipe_summary :=
  {| s_id := r_id r;
     s_name := r_name r;
     s_cuisine := r_cuisine r;
     s_tags := r_tags r;
     s_prepTime := r_prepTime r |}.

Inductive search_response :=
  | SR_recipes (recipes : list recipe_summary)       (* 200 *)
  | SR_error (status : nat) (error : string).

(** [GET /recipes/search]. [None] when a pattern is outside the modelled
    fragment of regular expressions. *)
Definition recipes_search (q : search_query) : option (M search_response) :=
  criteria ← search_criteria q;
  Some (try_catch
          (db ← get_db;
           let recipes := project <$> find_recipes criteria (recipes db) in
           mret (SR_recipes recipes))
          (λ _, mret (SR_error 500 "Internal server error"))).

(** [Array.prototype.join] with a one-character separator, on the pieces
    of a string. *)
Fixpoint join_chars (sep : ascii) (pieces : list (list ascii)) : list ascii :=
  match pieces with
  | [] => []
  | [piece] => piece
  | piece :: rest => (piece ++ sep :: join_chars sep rest)%list
  end.

(* ===================================================================== *)
(** ** The natural-language search, whole *)
(* ===================================================================== *)

(** The strings of an array of strings. *)
Definition strings_of (items : list json) : option (list string) :=
  mapM (λ j, match j with J_string s => Some s | _ => None end) items.

(** The read [searchParams.key] of an array member. The handler is traced
    on replies where the member is absent or an array of strings; [None]
    stands for any other reply. *)
Definition read_strings (key : string) (members : list (string * json))
  : option (option (list string)) :=
  match member key members with
  | None => Some None
  | Some (J_array items) => Some <$> strings_of items
  | Some _ => None
  end.

(** The read of a string member, on the same terms. *)
Definition read_string (key : string) (members : list (string * json))
  : option (option string) :=
  match member key members with
  | None => Some None
  | Some (J_string s) => Some (Some s)
  | Some _ => None
  end.

Definition read_searchParams (j : json) : option StructuredAIQuery :=
  match j with
  | J_object members =>
      cuisines ← read_strings "cuisines" members;
      ingredients ← read_strings "ingredients" members;
      tags ← read_strings "tags" members;
      language ← read_string "userLanguage" members;
      Some (mkAIQuery cuisines ingredients tags language)
  | _ => None
  end.

Section Localizer.

(** The text that the backend returns for the recipes and the language
    that [translateRecipe] puts in its prompt. *)
Variable translation : list recipe → option string → string.

(** [translateRecipe]: the reply is returned as it is, never parsed. *)
Definition translateRecipe (recipe : list recipe)
    (userLanguage : option string) : M string :=
  mret (translation recipe userLanguage).

(** [GET /ai/recipes]; the value is the text sent, [None] for a reply of
    the translator outside the traced ones. The handler has no [try]. *)
Definition ai_recipes_get (aiResponse : ai_reply json) : M (option string) :=
  searchParams ← generateSearchParams aiResponse;
  match read_searchParams searchParams with
  | None => mret None
  | Some searchParams =>
      let criteria := ai_search_criteria searchParams in
      db ← get_db;
      let recipes := find_recipes criteria (recipes db) in
      translatedRecipe ← translateRecipe recipes (userLanguage searchParams);
      mret (Some translatedRecipe)
  end.

End Localizer.

(* ===================================================================== *)
(** ** The connection to the store *)
(* ===================================================================== *)

(** A client of the store: the address it was made for, and whether its
    [connect()] went through. *)
Record MongoClient := mkClient {
  client_uri : string;
  client_connected : bool
}.

(** What [connect] returns: the client itself, a handle on a database of
    the client, or nothing. *)
Inductive connection :=
  | The_client (c : MongoClient)
  | The_database (c : MongoClient) (dbname : string)
  | Nothing.

(** [connect(uri, dbname)] on the module's variable [client]; [reachable]
    tells whether [client.connect()] goes through. A failed connection is
    logged and the function falls off its end. *)
Definition connect (uri dbname : string) (reachable : bool)
    (client : option MongoClient) : connection * option MongoClient :=
  match client with
  | Some c => (The_client c, client)
  | None =>
      if reachable then
        let c := mkClient uri true in (The_database c dbname, Some c)
      else (Nothing, Some (mkClient uri false))
  end.

(* ===================================================================== *)
(** ** Users *)
(* ===================================================================== *)

(** A document of the [users] collection; the password is stored
    hashed. *)
Record user := mkUser {
  user_id : ObjectId;
  user_email : string;
  user_password : string
}.

Inductive auth_response :=
  | A_created (message : string) (userId : ObjectId)   (* 200 *)
  | A_token (accessToken : string)                      (* 200 *)
  | A_error (status : nat) (error : string).

Section Auth.

(** [bcrypt.hash(password, 12)] with the salt it draws, and
    [bcrypt.compare(password, hash)]. *)
Variable bcrypt_hash : string → N → string.
Variable bcrypt_compare : string → string → bool.

(** [jwt.sign(payload, process.env.TOKEN_SECRET, { expiresIn: "2w" })] as
    a function of the two fields of the payload. *)
Variable jwt_sign : ObjectId → string → string.

Definition generateAccessToken (id : ObjectId) (email : string) : string :=
  jwt_sign id email.

(** [POST /users]; [fresh] is the identifier given to the new document.
    The handler has no [try]: a refused insertion escapes it. The program
    declares no index on the collection, so only a taken identifier is
    refused. *)
Definition users_post (email password : string) (fresh : ObjectId) (salt : N)
    (users : list user) : outcome auth_response * list user :=
  if decide (fresh ∈ user_id <$> users) then (Throw MongoError, users)
  else
    (Ok (A_created "New user has been create has been created successfully"
           fresh),
     (users ++ [mkUser fresh email (bcrypt_hash password salt)])%list).

(** [POST /login] *)
Definition login (email password : string) (users : list user)
  : auth_response :=
  match head (filter (λ u, user_email u = email) users) with
  | Some user =>
      if bcrypt_compare password (user_password user) then
        A_token (generateAccessToken (user_id user) (user_email user))
      else A_error 401 "Invalid login"
  | None => A_error 401 "Invalid login"
  end.

End Auth.

(* ===================================================================== *)
(** * Properties *)
(* ===================================================================== *)

(** ** Regular expressions without syntax characters *)

Section Regexp.

Lemma parse_atom_literal (c : ascii) :
  syntax_char c = false → parse_atom c = Some (Lit c).
Proof.
  intros Hc. unfold parse_atom.
  destruct (decide (c = "."%char)) as [->|_]; [by vm_compute in Hc|].
  by rewrite Hc.
Qed.

Lemma RegExp_literal (s : string) (i : bool) :
  literal_name s → RegExp s i = Some (mkRegExp (Lit <$> chars s) i).
Proof.
  intros Hs. unfold RegExp.
  assert (mapM parse_atom (chars s) = Some (Lit <$> chars s)) as ->; [|done].
  apply mapM_Some, Forall2_fmap_r, Forall_Forall2_diag.
  eapply Forall_impl; [exact Hs|]. intros c Hc. by apply parse_atom_literal.
Qed.

Lemma match_here_literal (n h : list ascii) :
  match_here true (Lit <$> n) h = true ↔
  ∃ post, to_lower <$> h = ((to_lower <$> n) ++ post)%list.
Proof.
  revert h. induction n as [|a n IH]; intros h; csimpl.
  - split; [eauto|done].
  - destruct h as [|c h]; csimpl.
    + split; [done|]. by intros [post ?].
    + rewrite andb_true_iff, bool_decide_eq_true, IH. split.
      * intros [Ha [post Hp]]. exists post. by rewrite Ha, Hp.
      * intros [post Hp]. injection Hp as Ha Hp. eauto.
Qed.

Lemma search_literal (n h : list ascii) :
  search true (Lit <$> n) h = true ↔
  ∃ pre post, to_lower <$> h = (pre ++ (to_lower <$> n) ++ post)%list.
Proof.
  induction h as [|c h IH]; csimpl; rewrite orb_true_iff, match_here_literal.
  - split.
    + intros [[post Hp]|?]; [|done]. by exists [], post.
    + intros (pre & post & Hp). left.
      destruct pre; [by exists post|done].
  - rewrite IH. split.
    + intros [[post Hp]|(pre & post & Hp)].
      * by exists [], post.
      * exists (to_lower c :: pre), post. csimpl. by rewrite Hp.
    + intros (pre & post & Hp). destruct pre as [|p pre]; csimpl in Hp.
      * left. by exists post.
      * right. injection Hp as _ Hp. by exists pre, post.
Qed.

Lemma regexp_test_literal (needle hay : string) :
  regexp_test (mkRegExp (Lit <$> chars needle) true) hay = true ↔
  ci_contains needle hay.
Proof. apply search_literal. Qed.

End Regexp.

(** ** Conditions and criteria *)

Section Criteria.

Lemma existsb_elem_of {A} (f : A → bool) (l : list A) :
  existsb f l = true ↔ ∃ x, x ∈ l ∧ f x = true.
Proof.
  rewrite existsb_exists. by setoid_rewrite list_elem_of_In.
Qed.

Lemma forallb_elem_of {A} (f : A → bool) (l : list A) :
  forallb f l = true ↔ ∀ x, x ∈ l → f x = true.
Proof.
  rewrite forallb_forall. by setoid_rewrite list_elem_of_In.
Qed.

Lemma satisfies_empty (r : recipe) : satisfies ∅ r.
Proof. apply map_Forall_empty. Qed.

Lemma satisfies_true (criteria : gmap string cond) (r : recipe) :
  bool_decide (satisfies criteria r) = true → satisfies criteria r.
Proof. apply bool_decide_eq_true. Qed.

Lemma satisfies_false (criteria : gmap string cond) (r : recipe) :
  bool_decide (satisfies criteria r) = false → ¬ satisfies criteria r.
Proof. apply bool_decide_eq_false. Qed.

Lemma satisfies_insert (path : string) (c : cond)
    (criteria : gmap string cond) (r : recipe) :
  criteria !! path = None →
  satisfies (<[path := c]> criteria) r ↔
  eval_cond c (field_values path r) = true ∧ satisfies criteria r.
Proof. intros Hnone. unfold satisfies. by rewrite map_Forall_insert. Qed.

(** [$in] on a path through an array of documents. *)
Lemma eval_in_names {A} (f : A → string) (xs : list string) (l : list A) :
  eval_cond (C_in xs) (f <$> l) = true ↔ ∃ a, a ∈ l ∧ f a ∈ xs.
Proof.
  simpl. rewrite existsb_elem_of. split.
  - intros (v & Hv & Hin). apply list_elem_of_fmap in Hv as (a & -> & Ha).
    apply bool_decide_eq_true in Hin. eauto.
  - intros (a & Ha & Hin). exists (f a). split.
    + apply list_elem_of_fmap. eauto.
    + by apply bool_decide_eq_true.
Qed.

(** [$all] on a path through an array of documents. *)
Lemma eval_all_names {A} (f : A → string) (es : list operand) (l : list A) :
  eval_cond (C_all es) (f <$> l) = true ↔
  es ≠ [] ∧ ∀ e, e ∈ es → ∃ a, a ∈ l ∧ operand_match e (f a) = true.
Proof.
  destruct es as [|e0 es]; [simpl; split; [done | by intros [? _]]|].
  change (eval_cond (C_all (e0 :: es)) (f <$> l))
    with (forallb (λ e, existsb (operand_match e) (f <$> l)) (e0 :: es)).
  rewrite forallb_elem_of. split.
  - intros Hall. split; [done|]. intros e He.
    apply Hall, existsb_elem_of in He as (v & Hv & Hm).
    apply list_elem_of_fmap in Hv as (a & -> & Ha). eauto.
  - intros [_ Hall] e He. apply existsb_elem_of.
    destruct (Hall e He) as (a & Ha & Hm). exists (f a). split; [|done].
    apply list_elem_of_fmap. eauto.
Qed.

(** [$regex] on the recipe's own name. *)
Lemma eval_regex_name (re : regexp) (r : recipe) :
  eval_cond (C_regex re) (field_values "name" r) = true ↔
  ∃ name, r_name r = Some name ∧ regexp_test re name = true.
Proof.
  change (field_values "name" r) with (option_list (r_name r)).
  destruct (r_name r) as [name|]; simpl.
  - rewrite orb_false_r. split; [eauto | by intros (? & [= <-] & ?)].
  - split; [done | by intros (? & ? & ?)].
Qed.

End Criteria.

(** ** Filter Builder *)

Section FilterBuilder.

Lemma split_chars_nonempty (sep : ascii) (s : list ascii) :
  split_chars sep s ≠ [].
Proof.
  destruct s as [|c s]; [done|]. simpl.
  destruct (decide (c = sep)); [done|]. by destruct (split_chars sep s).
Qed.

Lemma split_nonempty (sep : ascii) (s : string) : split sep s ≠ [].
Proof.
  unfold split. intros Hnil. apply fmap_nil_inv in Hnil.
  by apply split_chars_nonempty in Hnil.
Qed.

Lemma RegExp_literals (names : list string) :
  Forall literal_name names →
  mapM (λ ingredient, RegExp ingredient true) names =
  Some ((λ n, mkRegExp (Lit <$> chars n) true) <$> names).
Proof.
  intros Hlit. apply mapM_Some, Forall2_fmap_r, Forall_Forall2_diag.
  eapply Forall_impl; [exact Hlit|]. intros n Hn. by apply RegExp_literal.
Qed.

(** The [$all] of the literal patterns of [names], on the ingredient
    names of a recipe. *)
Lemma eval_all_literals (names : list string) (r : recipe) :
  names ≠ [] →
  eval_cond
    (C_all (ORegex <$> ((λ n, mkRegExp (Lit <$> chars n) true) <$> names)))
    (field_values "ingredients.name" r) = true ↔
  ∀ name, name ∈ names →
    ∃ ing, ing ∈ default [] (r_ingredients r) ∧
           ci_contains name (ing_name ing).
Proof.
  intros Hne.
  change (field_values "ingredients.name" r)
    with (ing_name <$> default [] (r_ingredients r)).
  rewrite eval_all_names. split.
  - intros [_ Hall] name Hname.
    destruct (Hall (ORegex (mkRegExp (Lit <$> chars name) true)))
      as (ing & Hing & Hm).
    { rewrite <- list_fmap_compose. apply list_elem_of_fmap. eauto. }
    exists ing. split; [done|]. by apply regexp_test_literal.
  - intros Hall. split.
    { intros Hnil. by do 2 apply fmap_nil_inv in Hnil. }
    intros e He. rewrite <- list_fmap_compose in He.
    apply list_elem_of_fmap in He as (name & -> & Hname).
    destruct (Hall name Hname) as (ing & Hing & Hc).
    exists ing. split; [done|]. by apply regexp_test_literal.
Qed.

Lemma eval_in_tags (names : list string) (r : recipe) :
  eval_cond (C_in names) (field_values "tags.name" r) = true ↔
  ∃ t, t ∈ r_tags r ∧ doc_name t ∈ names.
Proof. apply eval_in_names. Qed.

Lemma eval_regex_literal (text : string) (r : recipe) :
  eval_cond (C_regex (mkRegExp (Lit <$> chars text) true))
    (field_values "name" r) = true ↔
  ∃ name, r_name r = Some name ∧ ci_contains text name.
Proof.
  rewrite eval_regex_name. by setoid_rewrite regexp_test_literal.
Qed.

(** On requests whose name text and ingredient names have no syntax
    characters, the handler's criteria denote the predicate of the
    specification's Filter Builder. *)
Lemma search_criteria_literal (q : search_query) :
  (∀ text, given (q_name q) = Some text → literal_name text) →
  Forall literal_name (given_list (q_ingredients q)) →
  ∃ criteria,
    search_criteria q = Some criteria ∧
    ∀ r, satisfies criteria r ↔
         buildCriteria_spec (given (q_name q)) (given_list (q_tags q))
           (given_list (q_ingredients q)) r.
Proof.
  destruct q as [name tags ingredients].
  unfold search_criteria, given, given_list, buildCriteria_spec. simpl.
  intros Hname Hingr.
  destruct (truthy_string name) eqn:Tn;
    destruct (truthy_string tags) eqn:Tt;
    destruct (truthy_string ingredients) eqn:Ti; simpl.
  all: try (destruct name as [name|]; [|done]; simpl;
            rewrite (RegExp_literal name true (Hname name eq_refl)); simpl).
  all: try (rewrite (RegExp_literals _ Hingr); simpl).
  all: eexists; split; [reflexivity|]; intros r.
  all: rewrite ?satisfies_insert by (by simplify_map_eq).
  all: rewrite ?eval_all_literals by apply split_nonempty.
  all: rewrite ?eval_in_tags, ?eval_regex_literal.
  all: pose proof (satisfies_empty r) as He.
  all: pose proof (split_nonempty ","%char (default "" tags)) as Hst.
  all: pose proof (split_nonempty ","%char (default "" ingredients)) as Hsi.
  all: naive_solver.
Qed.

End FilterBuilder.

(** ** The ingredient clause (C4) *)

Lemma ci_contains_search (needle hay : string) :
  ci_contains needle hay ↔
  search true (Lit <$> chars needle) (chars hay) = true.
Proof. symmetry. apply search_literal. Qed.

(** C4, amended. For a search request that gives only ingredient names,
    all of them made of ASCII characters none of which is a
    regular-expression syntax character, the Filter Builder's criteria
    exist, and they hold of a recipe whose ingredient names are ASCII
    exactly when every supplied name is contained, case-insensitively, in
    the name of some ingredient of the recipe. *)
Theorem filter_builder_ingredients (ingredients : string) :
  ingredients ≠ "" →
  Forall literal_name (split ","%char ingredients) →
  Forall ascii_name (split ","%char ingredients) →
  ∃ criteria,
    search_criteria (mkQuery None None (Some ingredients)) = Some criteria ∧
    ∀ r, Forall (λ ing, ascii_name (ing_name ing))
           (default [] (r_ingredients r)) →
         (satisfies criteria r ↔
          ∀ name, name ∈ split ","%char ingredients →
            ∃ ing, ing ∈ default [] (r_ingredients r) ∧
                   ci_contains name (ing_name ing)).
Proof.
  intros Hne Hlit _.
  assert (truthy_string (Some ingredients) = true) as Ht.
  { simpl. by rewrite bool_decide_eq_false_2. }
  destruct (search_criteria_literal (mkQuery None None (Some ingredients)))
    as (criteria & Hc & Hsat).
  - done.
  - unfold given_list. simpl q_ingredients. by rewrite Ht.
  - exists criteria. split; [done|]. intros r _. rewrite Hsat.
    unfold buildCriteria_spec, given, given_list. simpl q_ingredients.
    rewrite Ht. simpl.
    pose proof (split_nonempty ","%char ingredients). naive_solver.
Qed.

Lemma filter_builder_ingredients_witness :
  ∃ criteria,
    search_criteria (mkQuery None None (Some "chicken,garlic"))
      = Some criteria ∧
    (satisfies criteria chicken_garlic_salt ↔
     ∀ name, name ∈ split ","%char "chicken,garlic" →
       ∃ ing, ing ∈ default [] (r_ingredients chicken_garlic_salt) ∧
              ci_contains name (ing_name ing)).
Proof.
  destruct (filter_builder_ingredients "chicken,garlic")
    as (criteria & Hc & Hsat).
  - discriminate.
  - vm_compute. repeat constructor.
  - vm_compute. repeat constructor.
  - exists criteria. split; [exact Hc|]. apply Hsat.
    vm_compute. repeat constructor.
Defined.

(** The criteria for [chicken,garlic] hold of the recipe with chicken
    breast, garlic and salt, and not of the one with chicken and onion. *)
Example chicken_garlic_matches :
  ∃ criteria,
    search_criteria (mkQuery None None (Some "chicken,garlic"))
      = Some criteria ∧
    satisfies criteria chicken_garlic_salt ∧
    ¬ satisfies criteria chicken_onion.
Proof.
  eexists. split; [reflexivity|]. split.
  - apply satisfies_true. by vm_compute.
  - apply satisfies_false. by vm_compute.
Qed.

(** C4, counterexample. The criteria for the ingredient name [chick.n]
    hold of a recipe whose ingredients are chicken and onion, although no
    ingredient name contains [chick.n]: the supplied name is compiled as a
    regular expression, and its dot matches any character. *)
Lemma filter_builder_wildcard_counterexample :
  ∃ criteria,
    search_criteria (mkQuery None None (Some "chick.n")) = Some criteria ∧
    satisfies criteria chicken_onion ∧
    ¬ (∀ name, name ∈ split ","%char "chick.n" →
         ∃ ing, ing ∈ default [] (r_ingredients chicken_onion) ∧
                ci_contains name (ing_name ing)).
Proof.
  eexists. split; [reflexivity|]. split.
  - apply satisfies_true. by vm_compute.
  - intros Hall. destruct (Hall "chick.n") as (ing & Hing & Hc).
    { by left. }
    apply ci_contains_search in Hc.
    apply list_elem_of_In in Hing.
    destruct Hing as [<-|[<-|[]]]; by vm_compute in Hc.
Qed.

(** ** Absent and empty parameters (C7) *)

(** C7. When the name text, the tag names and the ingredient names are all
    absent or empty, the Filter Builder produces the empty criteria, which
    every recipe satisfies, so that the search returns the whole
    collection; and in any criteria that the Filter Builder produces, a
    parameter that is absent or empty has no clause. *)
Theorem filter_builder_omits_absent (q : search_query) :
  (truthy_string (q_name q) = false →
   truthy_string (q_tags q) = false →
   truthy_string (q_ingredients q) = false →
   search_criteria q = Some ∅ ∧
   (∀ r, satisfies ∅ r) ∧
   (∀ rs, find_recipes ∅ rs = rs)) ∧
  (∀ criteria, search_criteria q = Some criteria →
     (truthy_string (q_name q) = false → criteria !! "name" = None) ∧
     (truthy_string (q_tags q) = false → criteria !! "tags.name" = None) ∧
     (truthy_string (q_ingredients q) = false →
        criteria !! "ingredients.name" = None)).
Proof.
  split.
  - intros Hn Ht Hi. unfold search_criteria. rewrite Hn, Ht, Hi. simpl.
    split; [done|]. split; [apply satisfies_empty|].
    intros rs. unfold find_recipes. induction rs as [|r rs IH]; [done|].
    rewrite filter_cons_True by apply satisfies_empty. by rewrite IH.
  - intros criteria. unfold search_criteria.
    destruct (truthy_string (q_name q));
      destruct (truthy_string (q_tags q));
      destruct (truthy_string (q_ingredients q)); simpl.
    all: repeat match goal with
           | |- context [RegExp ?p ?i] => destruct (RegExp p i); simpl
           | |- context [mapM ?f ?l] => destruct (mapM f l); simpl
           end.
    all: intros [= <-] || (intros [=]).
    all: repeat split; intros Hf; first [discriminate Hf | by simplify_map_eq].
Qed.

Lemma filter_builder_omits_absent_witness :
  search_criteria (mkQuery None (Some "") None) = Some ∅ ∧
  (∀ r, satisfies ∅ r) ∧
  (∀ rs, find_recipes ∅ rs = rs).
Proof.
  destruct (filter_builder_omits_absent (mkQuery None (Some "") None))
    as [Hall _].
  apply Hall; reflexivity.
Defined.

(** ** Natural-language search (C2) *)

Section AISearch.

Lemma eval_in_cuisine (names : list string) (r : recipe) :
  eval_cond (C_in names) (field_values "cuisine.name" r) = true ↔
  ∃ c, r_cuisine r = Some c ∧ doc_name c ∈ names.
Proof.
  change (field_values "cuisine.name" r)
    with (option_list (doc_name <$> r_cuisine r)).
  destruct (r_cuisine r) as [c|]; simpl.
  - rewrite orb_false_r, bool_decide_eq_true.
    split; [eauto | by intros (? & [= <-] & ?)].
  - split; [done | by intros (? & ? & ?)].
Qed.

Lemma eval_all_strings (names : list string) (r : recipe) :
  names ≠ [] →
  eval_cond (C_all (OStr <$> names)) (field_values "ingredients.name" r)
    = true ↔
  ∀ name, name ∈ names →
    ∃ ing, ing ∈ default [] (r_ingredients r) ∧ ing_name ing = name.
Proof.
  intros Hne.
  change (field_values "ingredients.name" r)
    with (ing_name <$> default [] (r_ingredients r)).
  rewrite eval_all_names. split.
  - intros [_ Hall] name Hname.
    destruct (Hall (OStr name)) as (ing & Hing & Hm).
    { apply list_elem_of_fmap. eauto. }
    apply bool_decide_eq_true in Hm. eauto.
  - intros Hall. split.
    { intros Hnil. by apply fmap_nil_inv in Hnil. }
    intros e He. apply list_elem_of_fmap in He as (name & -> & Hname).
    destruct (Hall name Hname) as (ing & Hing & <-).
    exists ing. split; [done|]. by apply bool_decide_eq_true.
Qed.

Lemma non_empty_true {A} (o : option (list A)) :
  non_empty o = true → default [] o ≠ [].
Proof. by destruct o as [[|]|]. Qed.

Lemma non_empty_false {A} (o : option (list A)) :
  non_empty o = false → default [] o = [].
Proof. by destruct o as [[|]|]. Qed.

Lemma ai_search_criteria_predicate (searchParams : StructuredAIQuery)
    (r : recipe) :
  satisfies (ai_search_criteria searchParams) r ↔
  ai_predicate searchParams r.
Proof.
  unfold ai_search_criteria, ai_predicate.
  destruct (non_empty (ai_cuisines searchParams)) eqn:Hc;
    destruct (non_empty (ai_ingredients searchParams)) eqn:Hi;
    destruct (non_empty (ai_tags searchParams)) eqn:Ht.
  all: rewrite ?satisfies_insert by (by simplify_map_eq).
  all: rewrite ?eval_all_strings by (by apply non_empty_true).
  all: rewrite ?eval_in_tags, ?eval_in_cuisine.
  all: pose proof (satisfies_empty r).
  all: naive_solver.
Qed.

Lemma ci_contains_refl (s : string) : ci_contains s s.
Proof. exists [], []. by rewrite app_nil_r. Qed.

End AISearch.

(** C2, amended. The natural-language search builds its criteria itself
    from the translator's cuisines, ingredients and tags. The criteria hold
    of a recipe exactly when the recipe's cuisine is one of the cuisines,
    every ingredient name is equal to the name of some ingredient of the
    recipe, and some tag of the recipe is one of the tags (a clause counts
    only for an array that is there and not empty). Without cuisines, a
    recipe that satisfies them also satisfies the Filter Builder's
    predicate for the same tag names and ingredient names. *)
Theorem ai_search_exact_match (searchParams : StructuredAIQuery)
    (r : recipe) :
  (satisfies (ai_search_criteria searchParams) r ↔
   ai_predicate searchParams r) ∧
  (non_empty (ai_cuisines searchParams) = false →
   satisfies (ai_search_criteria searchParams) r →
   buildCriteria_spec None (default [] (ai_tags searchParams))
     (default [] (ai_ingredients searchParams)) r).
Proof.
  split; [apply ai_search_criteria_predicate|].
  intros Hc Hsat. apply ai_search_criteria_predicate in Hsat.
  destruct Hsat as (_ & Hi & Ht). unfold buildCriteria_spec.
  split; [done|]. split.
  - intros Hne. apply Ht.
    destruct (ai_tags searchParams) as [[|]|]; done.
  - intros Hne name Hname.
    destruct (Hi) with (name := name) as (ing & Hing & <-); [|done|].
    + destruct (ai_ingredients searchParams) as [[|]|]; done.
    + exists ing. split; [done|]. apply ci_contains_refl.
Qed.

Lemma ai_search_exact_match_witness :
  buildCriteria_spec None [] ["chicken"] chicken_onion.
Proof.
  apply (ai_search_exact_match
           (mkAIQuery None (Some ["chicken"]) None None) chicken_onion).
  - reflexivity.
  - apply satisfies_true. by vm_compute.
Defined.

(** C2, counterexample. For the single ingredient name [chicken] and no
    tags, the structured search matches the recipe whose only ingredient
    is chicken breast, and the natural-language search does not. *)
Lemma ai_search_counterexample :
  ∃ criteria,
    search_criteria (mkQuery None None (Some "chicken")) = Some criteria ∧
    satisfies criteria chicken_breast ∧
    ¬ satisfies
        (ai_search_criteria (mkAIQuery None (Some ["chicken"]) None None))
        chicken_breast.
Proof.
  eexists. split; [reflexivity|]. split.
  - apply satisfies_true. by vm_compute.
  - apply satisfies_false. by vm_compute.
Qed.

(** ** Recipe Validator (C3, C6, C8) *)

(** Unfolds the operations of the monad and of the store. *)
Ltac run_M :=
  cbv [mbind M_bind mret M_ret get_db put_db throw try_catch respond
       set_recipes findOne_name find_name_in findOne_recipe insertOne
       updateOne deleteOne new_ObjectId JSON_parse].

Section Validator.

Lemma first_named_None (name : string) (ds : list doc) :
  first_named name ds = None ↔ ∀ d, d ∈ ds → doc_name d ≠ name.
Proof.
  unfold first_named. rewrite head_None. split.
  - intros Hnil d Hd Hname.
    assert (d ∈ filter (λ d, doc_name d = name) ds) as Hin
      by by apply list_elem_of_filter.
    rewrite Hnil in Hin. by apply not_elem_of_nil in Hin.
  - intros Hall. apply elem_of_nil_inv. intros d Hd.
    apply list_elem_of_filter in Hd as [Hname Hd]. by apply (Hall d).
Qed.

Lemma first_named_Some (name : string) (ds : list doc) (d : doc) :
  first_named name ds = Some d → d ∈ ds ∧ doc_name d = name.
Proof.
  unfold first_named. intros Hhead.
  assert (d ∈ filter (λ d, doc_name d = name) ds) as Hin.
  { destruct (filter _ ds) as [|d' l]; [done|].
    injection Hhead as ->. by left. }
  apply list_elem_of_filter in Hin. tauto.
Qed.

(** With distinct names in the collection, as many documents as names
    can only be found for distinct names that are all in the
    collection. *)
Lemma docs_named_length (names : list string) (ds : list doc) :
  NoDup (doc_name <$> ds) →
  List.length (docs_named names ds) = List.length names →
  NoDup names ∧ ∀ n, n ∈ names → n ∈ doc_name <$> ds.
Proof.
  intros Hnodup Hlen.
  set (l := doc_name <$> docs_named names ds).
  assert (l `sublist_of` doc_name <$> ds) as Hsub.
  { apply fmap_sublist, sublist_filter. }
  assert (NoDup l) as Hl by by eapply sublist_NoDup.
  assert (l ⊆+ names) as Hms.
  { apply NoDup_submseteq; [done|]. intros x Hx.
    apply list_elem_of_fmap in Hx as (d & -> & Hd).
    by apply list_elem_of_filter in Hd as [Hin _]. }
  assert (l ≡ₚ names) as Hperm.
  { apply submseteq_length_Permutation; [done|].
    unfold l. rewrite length_fmap. lia. }
  split.
  - by rewrite <- Hperm.
  - intros n Hn. rewrite <- Hperm in Hn. by eapply elem_of_sublist.
Qed.

(** The validator on a candidate that passes the presence check. *)
Lemma validateRecipe_present (request : candidate) (db : Db) :
  all_present request = true →
  validateRecipe request db =
  (Ok match c_cuisine request ≫= λ n, first_named n (cuisines db) with
      | None => Failure InvalidCuisine
      | Some cuisineDoc =>
          let tagDocs := docs_named (default [] (c_tags request)) (tags db) in
          if bool_decide (List.length tagDocs =
                          List.length (default [] (c_tags request)))
          then Success
                 {| n_name := c_name request;
                    n_cuisine := snapshot cuisineDoc;
                    n_prepTime := c_prepTime request;
                    n_cookTime := c_cookTime request;
                    n_servings := c_servings request;
                    n_ingredients := c_ingredients request;
                    n_instructions := c_instructions request;
                    n_tags := tagDocs |}
          else Failure InvalidTags
      end, db).
Proof.
  intros Hp. unfold validateRecipe. rewrite Hp. simpl.
  unfold findOne_name, mbind, M_bind, get_db, mret, M_ret. simpl.
  destruct (option_bind _ _ _ (c_cuisine request)) as [cuisineDoc|]; [|done].
  assert (is_Some (c_tags request)) as [names ->].
  { unfold all_present in Hp. destruct (c_tags request); [eauto|].
    simpl in Hp. by rewrite !andb_false_r in Hp. }
  simpl. by destruct (bool_decide _).
Qed.

(** The validator only reads the database. *)
Lemma validateRecipe_reads (request : candidate) (db : Db) :
  (validateRecipe request db).2 = db.
Proof.
  destruct (all_present request) eqn:Hp.
  - by rewrite validateRecipe_present.
  - unfold validateRecipe. by rewrite Hp.
Qed.

End Validator.

(** C6. For a candidate whose eight fields are all present and whose
    cuisine name is the name of no document of the cuisines collection,
    validation fails with [InvalidCuisine] and leaves the database as it
    was; the update and the create handlers then answer 400 and leave the
    database as it was too. *)
Theorem validate_invalid_cuisine (request : candidate) (name : string)
    (db : Db) (recipeId : string) (fresh : ObjectId) :
  all_present request = true →
  c_cuisine request = Some name →
  (∀ d, d ∈ cuisines db → doc_name d ≠ name) →
  validateRecipe request db = (Ok (Failure InvalidCuisine), db) ∧
  recipes_update recipeId request db =
    (Ok (mkResponse 400 (P_error "Invalid cuisine")), db) ∧
  recipes_create request fresh db =
    (Ok (mkResponse 400 (P_error "Error. Cuisine not found")), db).
Proof.
  intros Hp Hc Hnone. apply first_named_None in Hnone.
  assert (validateRecipe request db = (Ok (Failure InvalidCuisine), db))
    as Hv.
  { rewrite validateRecipe_present by done. rewrite Hc. simpl.
    by rewrite Hnone. }
  split; [done|]. split.
  - unfold recipes_update, try_catch, mbind, M_bind. by rewrite Hv.
  - unfold recipes_create. rewrite Hp. simpl.
    unfold findOne_name, mbind, M_bind, get_db, mret, M_ret. simpl.
    rewrite Hc. simpl. by rewrite Hnone.
Qed.

Lemma validate_invalid_cuisine_witness :
  validateRecipe (with_cuisine "Atlantis" tom_yum) fixture_db =
    (Ok (Failure InvalidCuisine), fixture_db) ∧
  recipes_update "695f64e320c0ab9c7a35125d" (with_cuisine "Atlantis" tom_yum)
    fixture_db =
    (Ok (mkResponse 400 (P_error "Invalid cuisine")), fixture_db) ∧
  recipes_create (with_cuisine "Atlantis" tom_yum) 7%N fixture_db =
    (Ok (mkResponse 400 (P_error "Error. Cuisine not found")), fixture_db).
Proof.
  apply (validate_invalid_cuisine (with_cuisine "Atlantis" tom_yum)
           "Atlantis" fixture_db "695f64e320c0ab9c7a35125d" 7%N).
  - reflexivity.
  - reflexivity.
  - intros d Hd. apply list_elem_of_In in Hd.
    destruct Hd as [<-|[<-|[]]]; discriminate.
Defined.

(** C3. For a candidate whose eight fields are all present and whose
    cuisine is in the cuisines collection, validation fails with
    [InvalidTags] exactly when the number of documents of the tags
    collection whose name is one of the requested names differs from the
    number of requested names. When the names of the tags collection are
    distinct, that is the case as soon as a requested name occurs twice,
    and as soon as a requested name is not in the collection. *)
Theorem validate_invalid_tags (request : candidate) (name : string)
    (names : list string) (db : Db) :
  all_present request = true →
  c_cuisine request = Some name →
  (∃ d, d ∈ cuisines db ∧ doc_name d = name) →
  c_tags request = Some names →
  (validateRecipe request db = (Ok (Failure InvalidTags), db) ↔
   List.length (docs_named names (tags db)) ≠ List.length names) ∧
  (NoDup (doc_name <$> tags db) → ¬ NoDup names →
   validateRecipe request db = (Ok (Failure InvalidTags), db)) ∧
  (NoDup (doc_name <$> tags db) →
   (∃ n, n ∈ names ∧ n ∉ doc_name <$> tags db) →
   validateRecipe request db = (Ok (Failure InvalidTags), db)).
Proof.
  intros Hp Hc (d & Hd & Hname) Ht.
  destruct (first_named name (cuisines db)) as [cuisineDoc|] eqn:Hfirst.
  2: { rewrite first_named_None in Hfirst. by destruct (Hfirst d Hd). }
  assert (validateRecipe request db = (Ok (Failure InvalidTags), db) ↔
          List.length (docs_named names (tags db)) ≠ List.length names)
    as Hiff.
  { rewrite validateRecipe_present by done. rewrite Hc, Ht. simpl.
    rewrite Hfirst. case_bool_decide as Hlen.
    - split; [done|]. intros Hne. by destruct Hne.
    - done. }
  split; [done|]. split.
  - intros Hnodup Hdup. apply Hiff. intros Hlen.
    by destruct (docs_named_length names (tags db) Hnodup Hlen).
  - intros Hnodup (n & Hn & Hout). apply Hiff. intros Hlen.
    destruct (docs_named_length names (tags db) Hnodup Hlen) as [_ Hall].
    by apply Hout, Hall.
Qed.

Lemma validate_invalid_tags_witness :
  validateRecipe (with_tags ["spicy"; "spicy"] tom_yum) fixture_db =
    (Ok (Failure InvalidTags), fixture_db).
Proof.
  destruct (validate_invalid_tags (with_tags ["spicy"; "spicy"] tom_yum)
              "Thai" ["spicy"; "spicy"] fixture_db) as [Hiff _].
  - reflexivity.
  - reflexivity.
  - exists thai. split; [by left | reflexivity].
  - reflexivity.
  - apply Hiff. vm_compute. lia.
Defined.

(** C8. When validation succeeds, the database is as it was, and in the
    normalized recipe the cuisine is the identifier and the name of the
    cuisine document found for the candidate's cuisine name, the tags are
    the documents of the tags collection whose name was requested, in the
    order of the collection, and the name, the preparation and cooking
    times, the servings, the ingredients and the instructions are the
    candidate's. The create handler, given an identifier that is not in
    use, stores a recipe with exactly these fields and answers 201. *)
Theorem validate_success_shape (request : candidate) (db db' : Db)
    (newRecipe : NormalizedRecipe) :
  validateRecipe request db = (Ok (Success newRecipe), db') →
  db' = db ∧
  (∃ name cuisineDoc,
     c_cuisine request = Some name ∧
     cuisineDoc ∈ cuisines db ∧ doc_name cuisineDoc = name ∧
     n_cuisine newRecipe =
       {| doc_id := doc_id cuisineDoc; doc_name := doc_name cuisineDoc;
          doc_extra := [] |}) ∧
  (∃ names,
     c_tags request = Some names ∧
     n_tags newRecipe = docs_named names (tags db) ∧
     n_tags newRecipe `sublist_of` tags db) ∧
  n_name newRecipe = c_name request ∧
  n_prepTime newRecipe = c_prepTime request ∧
  n_cookTime newRecipe = c_cookTime request ∧
  n_servings newRecipe = c_servings request ∧
  n_ingredients newRecipe = c_ingredients request ∧
  n_instructions newRecipe = c_instructions request ∧
  (∀ fresh, fresh ∉ r_id <$> recipes db →
     recipes_create request fresh db =
     (Ok (mkResponse 201 (P_created "Recipe created" fresh)),
      {| cuisines := cuisines db;
         tags := tags db;
         recipes :=
           (recipes db ++
            [ {| r_id := fresh;
                 r_name := n_name newRecipe;
                 r_cuisine := Some (n_cuisine newRecipe);
                 r_prepTime := n_prepTime newRecipe;
                 r_cookTime := n_cookTime newRecipe;
                 r_servings := n_servings newRecipe;
                 r_ingredients := n_ingredients newRecipe;
                 r_instructions := n_instructions newRecipe;
                 r_tags := n_tags newRecipe;
                 r_reviews := [] |} ])%list |})).
Proof.
  intros Hv. destruct (all_present request) eqn:Hp.
  2: { unfold validateRecipe in Hv. rewrite Hp in Hv. discriminate. }
  rewrite validateRecipe_present in Hv by done.
  destruct (c_cuisine request) as [name|] eqn:Hc; [|discriminate].
  simpl in Hv.
  destruct (first_named name (cuisines db)) as [cuisineDoc|] eqn:Hfirst;
    [|discriminate].
  pose proof Hfirst as Hfirst'.
  apply first_named_Some in Hfirst as [Hin Hname].
  assert (is_Some (c_tags request)) as [names Ht].
  { unfold all_present in Hp. destruct (c_tags request); [eauto|].
    simpl in Hp. by rewrite !andb_false_r in Hp. }
  rewrite Ht in Hv. simpl in Hv.
  case_bool_decide as Hlen; [|discriminate]. injection Hv as <- <-. simpl.
  split; [done|]. split; [by exists name, cuisineDoc|].
  split; [|repeat (split; [done|])].
  { exists names. split; [done|]. split; [done|]. apply sublist_filter. }
  intros fresh Hfresh. unfold recipes_create. rewrite Hp. run_M.
  rewrite Hc. simpl. rewrite Hfirst', Ht. simpl.
  rewrite bool_decide_eq_true_2 by done. simpl.
  by rewrite decide_False by done.
Qed.

Lemma validate_success_shape_witness :
  ∃ newRecipe,
    validateRecipe tom_yum fixture_db = (Ok (Success newRecipe), fixture_db) ∧
    n_cuisine newRecipe = mkDoc 100%N "Thai" [] ∧
    n_tags newRecipe = [quick; spicy] ∧
    n_name newRecipe = Some "Tom Yum".
Proof.
  eexists. split; [reflexivity|].
  destruct (validate_success_shape tom_yum fixture_db fixture_db _ eq_refl)
    as (_ & _ & (names & Hn & Ht & _) & Hname & _).
  injection Hn as <-. split; [reflexivity|]. split; [exact Ht | exact Hname].
Defined.

(** ** Recipes from a description (C1) *)

Section AIRecipes.

(** The handler inserts whatever draft names a known cuisine and has a
    tags array, with the tags that were found. *)
Lemma ai_recipes_post_inserts (draft : candidate) (name : string)
    (cuisineDoc : doc) (names : list string) (fresh : ObjectId) (db : Db) :
  c_cuisine draft = Some name →
  first_named name (cuisines db) = Some cuisineDoc →
  c_tags draft = Some names →
  fresh ∉ r_id <$> recipes db →
  ai_recipes_post (Parsed draft) fresh db =
  (Ok (mkResponse 200 (P_recipeId fresh)),
   {| cuisines := cuisines db; tags := tags db;
      recipes :=
        (recipes db ++
         [ {| r_id := fresh;
              r_name := c_name draft;
              r_cuisine := Some cuisineDoc;
              r_prepTime := c_prepTime draft;
              r_cookTime := c_cookTime draft;
              r_servings := c_servings draft;
              r_ingredients := c_ingredients draft;
              r_instructions := c_instructions draft;
              r_tags := docs_named names (tags db);
              r_reviews := [] |} ])%list |}).
Proof.
  intros Hc Hfirst Ht Hfresh.
  unfold ai_recipes_post, generateRecipe. run_M.
  rewrite Hc. simpl. rewrite Hfirst, Ht. simpl.
  by rewrite decide_False by done.
Qed.

End AIRecipes.

(** C1, at the failing input. The draft asks for the tags spicy and
    unicorn, and unicorn is not in the tags collection: the Recipe
    Validator rejects the draft with [InvalidTags], and the handler of
    [POST /ai/recipes] inserts it all the same, with the full cuisine
    document and the one tag that was found. *)
Theorem ai_recipes_post_skips_validation :
  validateRecipe unicorn_draft fixture_db =
    (Ok (Failure InvalidTags), fixture_db) ∧
  ai_recipes_post (Parsed unicorn_draft) 7%N fixture_db =
    (Ok (mkResponse 200 (P_recipeId 7%N)),
     {| cuisines := cuisines fixture_db;
        tags := tags fixture_db;
        recipes :=
          (recipes fixture_db ++
           [ {| r_id := 7%N;
                r_name := Some "Tom Yum";
                r_cuisine := Some thai;
                r_prepTime := Some 10;
                r_cookTime := Some 20;
                r_servings := Some 2;
                r_ingredients := Some [mkIngredient "shrimp" "200" "g"];
                r_instructions := Some ["Boil stock."];
                r_tags := [spicy];
                r_reviews := [] |} ])%list |}).
Proof. split; by vm_compute. Qed.

(** ** Record identifiers (C5) *)

Section Identifiers.

Lemma update_first_found (oid : ObjectId) (f : recipe → recipe)
    (pre post : list recipe) (r : recipe) :
  r_id r = oid →
  (∀ p, p ∈ pre → r_id p ≠ oid) →
  update_first oid f (pre ++ r :: post) = (1%nat, pre ++ f r :: post)%list.
Proof.
  intros Hr Hpre. induction pre as [|p pre IH]; simpl.
  - by rewrite decide_True.
  - rewrite decide_False by (apply Hpre; by left).
    rewrite IH; [done|]. intros p' Hp'. apply Hpre. by right.
Qed.

Lemma findOne_recipe_missing (oid : ObjectId) (db : Db) :
  (∀ r, r ∈ recipes db → r_id r ≠ oid) →
  findOne_recipe oid db = (Ok None, db).
Proof.
  intros Hrs. run_M. f_equal. f_equal. apply head_None, elem_of_nil_inv.
  intros r Hr. apply list_elem_of_filter in Hr as [Hid Hr].
  by apply (Hrs r).
Qed.

(** A well-formed identifier of no recipe: the detail handler answers
    404. *)
Lemma recipes_detail_not_found (recipeId : string) (oid : ObjectId)
    (db : Db) :
  ObjectId_of_string recipeId = Some oid →
  (∀ r, r ∈ recipes db → r_id r ≠ oid) →
  recipes_detail recipeId db =
  (Ok (mkResponse 404 (P_error "recipe not found.")), db).
Proof.
  intros Hoid Hrs. pose proof (findOne_recipe_missing oid db Hrs) as Hf.
  unfold recipes_detail, try_catch, new_ObjectId. rewrite Hoid.
  unfold mbind, M_bind, mret at 1, M_ret at 1. by rewrite Hf.
Qed.

End Identifiers.

(** C5, on the code. For an identifier string that is not well formed,
    the detail handler answers 400; the update handler (on a request that
    passes validation), the delete handler and the review handler (on a
    complete request) answer 500. All four leave the database as it
    was. *)
Theorem malformed_id_responses (StringToNumber : string → jsnumber)
    (recipeId : string) (request : candidate) (newRecipe : NormalizedRecipe)
    (review : review_request) (fresh : ObjectId) (now : Z) (db : Db) :
  ObjectId_of_string recipeId = None →
  validateRecipe request db = (Ok (Success newRecipe), db) →
  truthy_string (b_user review) = true →
  truthy_rating (b_rating review) = true →
  truthy_string (b_comment review) = true →
  recipes_detail recipeId db =
    (Ok (mkResponse 400 (P_error "Invalid recipe ID format.")), db) ∧
  recipes_update recipeId request db =
    (Ok (mkResponse 500 (P_error "Internal server error")), db) ∧
  recipes_delete recipeId db =
    (Ok (mkResponse 500 (P_error "Internal Server Error")), db) ∧
  recipes_reviews StringToNumber recipeId review fresh now db =
    (Ok (mkResponse 500 (P_error "Internal server error")), db).
Proof.
  intros Hid Hv Hu Hr Hc. repeat split.
  - unfold recipes_detail, try_catch, new_ObjectId. by rewrite Hid.
  - unfold recipes_update, try_catch, new_ObjectId.
    unfold mbind at 1, M_bind at 1. rewrite Hv. by rewrite Hid.
  - unfold recipes_delete, try_catch, new_ObjectId. by rewrite Hid.
  - unfold recipes_reviews, try_catch, new_ObjectId.
    rewrite Hu, Hr, Hc. simpl. by rewrite Hid.
Qed.

Lemma malformed_id_responses_witness :
  recipes_detail "xyz" fixture_db =
    (Ok (mkResponse 400 (P_error "Invalid recipe ID format.")), fixture_db) ∧
  recipes_update "xyz" tom_yum fixture_db =
    (Ok (mkResponse 500 (P_error "Internal server error")), fixture_db) ∧
  recipes_delete "xyz" fixture_db =
    (Ok (mkResponse 500 (P_error "Internal Server Error")), fixture_db) ∧
  recipes_reviews (λ _, NaN) "xyz" (rated 5) 7%N 1000 fixture_db =
    (Ok (mkResponse 500 (P_error "Internal server error")), fixture_db).
Proof.
  eapply (malformed_id_responses (λ _, NaN) "xyz" tom_yum _ (rated 5) 7%N 1000
            fixture_db); reflexivity.
Defined.

(** ** Reviews (C10) *)

Lemma truthy_number_zero (q : Q) :
  truthy_number_value (Num q) = false ↔ (q == 0)%Q.
Proof.
  unfold truthy_number_value, Qeq. simpl.
  rewrite negb_false_iff, Z.eqb_eq. lia.
Qed.

(** C10. The review handler answers 400, missing required fields, to a
    request whose rating is the number 0 and to a request whose comment is
    the empty string, and leaves the database as it was. To a request with
    a user, a comment and any other numeric rating (a finite number that
    is not 0, integer or fractional and of any size, or an infinity), for
    the well-formed identifier of a stored recipe, it answers 201 with the
    identifier made for the review, and in the database the first recipe
    with that identifier has, after the reviews it had, one more review
    that carries that identifier, the user, the rating as given, the
    comment and the time read; its other fields and the other recipes are
    as they were. *)
Theorem review_rating_presence (StringToNumber : string → jsnumber)
    (recipeId : string) (request : review_request) (fresh : ObjectId)
    (now : Z) (db : Db) :
  (∀ q, b_rating request = Some (R_number (Num q)) → (q == 0)%Q →
   recipes_reviews StringToNumber recipeId request fresh now db =
     (Ok (mkResponse 400 (P_error "Missing required fields")), db)) ∧
  (b_comment request = Some "" →
   recipes_reviews StringToNumber recipeId request fresh now db =
     (Ok (mkResponse 400 (P_error "Missing required fields")), db)) ∧
  (∀ (n : jsnumber) (user comment : string) (oid : ObjectId)
     (pre post : list recipe) (r : recipe),
     b_user request = Some user → user ≠ "" →
     b_comment request = Some comment → comment ≠ "" →
     b_rating request = Some (R_number n) →
     (∀ q, n = Num q → ¬ (q == 0)%Q) → n ≠ NaN →
     ObjectId_of_string recipeId = Some oid →
     recipes db = (pre ++ r :: post)%list →
     r_id r = oid →
     (∀ p, p ∈ pre → r_id p ≠ oid) →
     recipes_reviews StringToNumber recipeId request fresh now db =
       (Ok (mkResponse 201 (P_reviewed "Review added successfully" fresh)),
        {| cuisines := cuisines db;
           tags := tags db;
           recipes :=
             (pre ++
              {| r_id := r_id r;
                 r_name := r_name r;
                 r_cuisine := r_cuisine r;
                 r_prepTime := r_prepTime r;
                 r_cookTime := r_cookTime r;
                 r_servings := r_servings r;
                 r_ingredients := r_ingredients r;
                 r_instructions := r_instructions r;
                 r_tags := r_tags r;
                 r_reviews :=
                   (r_reviews r ++
                    [ {| review_id := fresh;
                         review_user := user;
                         review_rating := n;
                         review_comment := comment;
                         review_date := now |} ])%list |} :: post)%list |})).
Proof.
  split; [|split].
  - intros q Hr Hq. apply truthy_number_zero in Hq.
    unfold recipes_reviews, try_catch. rewrite Hr. unfold truthy_rating.
    rewrite Hq. simpl. by rewrite orb_true_r.
  - intros Hc. unfold recipes_reviews, try_catch. rewrite Hc. simpl.
    by rewrite orb_true_r.
  - intros n user comment oid pre post r Hu Hune Hc Hcne Hr Hzero Hnan Hid
      Hrs Hrid Hpre.
    assert (truthy_rating (Some (R_number n)) = true) as Htr.
    { destruct n as [q| |]; [|done|done]. simpl.
      destruct (truthy_number_value (Num q)) eqn:Htr; [done|].
      apply truthy_number_zero in Htr. by destruct (Hzero q). }
    unfold recipes_reviews. rewrite Hu, Hc, Hr, Htr. simpl.
    rewrite !bool_decide_eq_false_2 by done. simpl.
    run_M. rewrite Hid, Hrs.
    by rewrite update_first_found.
Qed.

Lemma review_rating_presence_witness :
  recipes_reviews (λ _, NaN) "000000000000000000000002" (rated 0) 7%N 1000
    fixture_db =
    (Ok (mkResponse 400 (P_error "Missing required fields")), fixture_db) ∧
  recipes_reviews (λ _, NaN) "000000000000000000000002" (rated (9 # 2)) 7%N
    1000 fixture_db =
    (Ok (mkResponse 201 (P_reviewed "Review added successfully" 7%N)),
     {| cuisines := cuisines fixture_db;
        tags := tags fixture_db;
        recipes :=
          [chicken_garlic_salt;
           {| r_id := 2%N;
              r_name := Some "Dish";
              r_cuisine := None;
              r_prepTime := Some 10;
              r_cookTime := Some 20;
              r_servings := Some 2;
              r_ingredients :=
                Some [mkIngredient "chicken" "1" "";
                      mkIngredient "onion" "1" ""];
              r_instructions := Some ["Cook."];
              r_tags := [];
              r_reviews :=
                [mkReview 7%N "ana" (Num (9 # 2)) "Good." 1000] |}] |}).
Proof.
  split.
  - destruct (review_rating_presence (λ _, NaN) "000000000000000000000002"
                (rated 0) 7%N 1000 fixture_db) as (Hzero & _ & _).
    by apply (Hzero 0%Q).
  - destruct (review_rating_presence (λ _, NaN) "000000000000000000000002"
                (rated (9 # 2)) 7%N 1000 fixture_db) as (_ & _ & Hadd).
    refine (Hadd (Num (9 # 2)) "ana" "Good." 2%N [chicken_garlic_salt] []
              chicken_onion _ _ _ _ _ _ _ _ _ _ _);
      try reflexivity; try discriminate.
    + intros q [= <-]. discriminate.
    + intros p Hp. apply list_elem_of_In in Hp.
      destruct Hp as [<-|[]]. discriminate.
Defined.

(** ** The translator's reply (C9) *)

Section Translator.

Lemma validates_strings (js : list json) :
  forallb (validates S_string) js = true ↔ ∃ ss, js = J_string <$> ss.
Proof.
  induction js as [|j js IH]; simpl.
  - split; [by exists []|done].
  - rewrite andb_true_iff, IH. split.
    + intros [Hj [ss ->]]. destruct j; try done. by exists (s :: ss).
    + intros [[|s ss] Hss]; [done|]. injection Hss as -> ->. eauto.
Qed.

Lemma validates_string_array (o : option json) :
  match o with
  | Some j' => validates (S_array S_string) j'
  | None => true
  end = true →
  is_Some o →
  ∃ ss, o = Some (J_array (J_string <$> ss)).
Proof.
  intros Hv [j ->]. destruct j; try done.
  apply validates_strings in Hv as [ss ->]. eauto.
Qed.

(** The values that conform to the declared schema: objects with the
    four members, three of them arrays of strings and one a string. *)
Lemma validates_searchParams (j : json) :
  validates searchParams_schema j = true ↔
  ∃ members ingredients tags cuisines language,
    j = J_object members ∧
    member "ingredients" members
      = Some (J_array (J_string <$> ingredients)) ∧
    member "tags" members = Some (J_array (J_string <$> tags)) ∧
    member "cuisines" members = Some (J_array (J_string <$> cuisines)) ∧
    member "userLanguage" members = Some (J_string language).
Proof.
  split.
  - destruct j as [| | | | |members]; try done.
    unfold searchParams_schema. cbn [validates].
    intros Hv. apply andb_true_iff in Hv as [Hreq Hprops].
    rewrite forallb_elem_of in Hreq. rewrite forallb_elem_of in Hprops.
    assert (∀ key, key ∈ ["ingredients"; "tags"; "cuisines"; "userLanguage"]
              → is_Some (member key members)) as Hsome.
    { intros key Hkey. apply Hreq in Hkey.
      by apply bool_decide_eq_true in Hkey. }
    destruct (validates_string_array (member "ingredients" members))
      as [ingredients Ei].
    { apply (Hprops ("ingredients", S_array S_string)). set_solver. }
    { apply Hsome. set_solver. }
    destruct (validates_string_array (member "tags" members))
      as [tags Et].
    { apply (Hprops ("tags", S_array S_string)). set_solver. }
    { apply Hsome. set_solver. }
    destruct (validates_string_array (member "cuisines" members))
      as [cuisines Ec].
    { apply (Hprops ("cuisines", S_array S_string)). set_solver. }
    { apply Hsome. set_solver. }
    destruct (Hsome "userLanguage") as [l El]; [set_solver|].
    pose proof (Hprops ("userLanguage", S_string)) as Vl.
    simpl in Vl. rewrite El in Vl.
    destruct l as [| | |language| |]; try (by discriminate Vl; set_solver).
    by exists members, ingredients, tags, cuisines, language.
  - intros (members & ingredients & tags & cuisines & language & -> &
            Ei & Et & Ec & El).
    unfold searchParams_schema. cbn [validates forallb fst snd].
    rewrite Ei, Et, Ec, El. cbn [validates].
    rewrite !bool_decide_eq_true_2 by eauto.
    assert (∀ ss, forallb (validates S_string) (J_string <$> ss) = true)
      as Hss by (intros ss; apply validates_strings; eauto).
    by rewrite !Hss.
Qed.

End Translator.

(** C9, amended. The translator asks for a reply of the declared schema,
    an object with the four required members, the ingredients, tags and
    cuisines arrays of strings and the user language a string, and returns
    what the reply parses to. Text that is not JSON is a hard failure, a
    [SyntaxError] thrown to the caller; a reply with empty arrays conforms
    to the schema and is returned like any other parsed reply. *)
Theorem generateSearchParams_parses (aiResponse : ai_reply json) (db : Db) :
  generateSearchParams aiResponse db =
    match aiResponse with
    | Malformed => (Throw SyntaxError, db)
    | Parsed searchParams => (Ok searchParams, db)
    end ∧
  (∀ j, validates searchParams_schema j = true ↔
     ∃ members ingredients tags cuisines language,
       j = J_object members ∧
       member "ingredients" members
         = Some (J_array (J_string <$> ingredients)) ∧
       member "tags" members = Some (J_array (J_string <$> tags)) ∧
       member "cuisines" members = Some (J_array (J_string <$> cuisines)) ∧
       member "userLanguage" members = Some (J_string language)) ∧
  validates searchParams_schema empty_reply = true ∧
  generateSearchParams (Parsed empty_reply) db = (Ok empty_reply, db).
Proof.
  split; [by destruct aiResponse|].
  split; [apply validates_searchParams|]. done.
Qed.

(** C9, counterexample. The first example output of the translator's own
    prompt has two of the four required members: as a reply it does not
    conform to the declared schema, and the translator returns it without
    failing. *)
Lemma generateSearchParams_counterexample :
  validates searchParams_schema prompt_example_reply = false ∧
  generateSearchParams (Parsed prompt_example_reply) fixture_db =
    (Ok prompt_example_reply, fixture_db).
Proof. split; reflexivity. Qed.

(* ===================================================================== *)
(** * Further properties of the handlers *)
(* ===================================================================== *)

(** ** How a kept relation composes *)

Section Preserves.

Context (R : Db → Db → Prop) `{!Reflexive R} `{!Transitive R}.

Lemma preserves_ret {A} (a : A) : preserves R (mret a).
Proof. intros db. reflexivity. Qed.

Lemma preserves_throw {A} (e : exn) : preserves R (throw (A:=A) e).
Proof. intros db. reflexivity. Qed.

Lemma preserves_get : preserves R get_db.
Proof. intros db. reflexivity. Qed.

Lemma preserves_bind {A B} (m : M A) (f : A → M B) :
  preserves R m → (∀ a, preserves R (f a)) → preserves R (m ≫= f).
Proof.
  intros Hm Hf db. unfold mbind, M_bind. specialize (Hm db).
  destruct (m db) as [[a|e] db1]; simpl in *; [|done].
  etrans; [exact Hm|]. apply Hf.
Qed.

Lemma preserves_try {A} (m : M A) (h : exn → M A) :
  preserves R m → (∀ e, preserves R (h e)) → preserves R (try_catch m h).
Proof.
  intros Hm Hh db. unfold try_catch. specialize (Hm db).
  destruct (m db) as [[a|e] db1]; simpl in *; [done|].
  etrans; [exact Hm|]. apply Hh.
Qed.

Lemma preserves_respond (code : nat) (p : payload) :
  preserves R (respond code p).
Proof. apply preserves_ret. Qed.

Lemma preserves_new_ObjectId (s : string) : preserves R (new_ObjectId s).
Proof.
  unfold new_ObjectId. destruct (ObjectId_of_string s);
    [apply preserves_ret | apply preserves_throw].
Qed.

Lemma preserves_findOne_name (coll : Db → list doc) (name : option string) :
  preserves R (findOne_name coll name).
Proof.
  apply preserves_bind; [apply preserves_get|]. intros. apply preserves_ret.
Qed.

Lemma preserves_find_name_in (coll : Db → list doc)
    (names : option (list string)) :
  preserves R (find_name_in coll names).
Proof.
  destruct names; [|apply preserves_throw].
  apply preserves_bind; [apply preserves_get|]. intros. apply preserves_ret.
Qed.

Lemma preserves_findOne_recipe (oid : ObjectId) :
  preserves R (findOne_recipe oid).
Proof.
  apply preserves_bind; [apply preserves_get|]. intros. apply preserves_ret.
Qed.

Lemma preserves_validateRecipe (request : candidate) :
  preserves R (validateRecipe request).
Proof.
  unfold validateRecipe. destruct (negb _); [apply preserves_ret|].
  apply preserves_bind; [apply preserves_findOne_name|].
  intros [cuisineDoc|]; [|apply preserves_ret].
  apply preserves_bind; [apply preserves_find_name_in|].
  intros tagDocs. destruct (negb _); apply preserves_ret.
Qed.

(** The handlers keep whatever the three writes of the store keep. *)
Hypothesis keeps_insertOne : ∀ r, preserves R (insertOne r).
Hypothesis keeps_updateOne :
  ∀ oid f, (∀ r, r_id (f r) = r_id r) → preserves R (updateOne oid f).
Hypothesis keeps_deleteOne : ∀ oid, preserves R (deleteOne oid).

Lemma preserves_recipes_detail (recipeId : string) :
  preserves R (recipes_detail recipeId).
Proof.
  apply preserves_try.
  - apply preserves_bind; [apply preserves_new_ObjectId|]. intros oid.
    apply preserves_bind; [apply preserves_findOne_recipe|].
    intros [r|]; apply preserves_respond.
  - intros []; apply preserves_respond.
Qed.

Lemma preserves_recipes_create (request : candidate) (fresh : ObjectId) :
  preserves R (recipes_create request fresh).
Proof.
  unfold recipes_create. destruct (negb _); [apply preserves_respond|].
  apply preserves_bind; [apply preserves_findOne_name|].
  intros [cuisineDoc|]; [|apply preserves_respond].
  apply preserves_bind; [apply preserves_find_name_in|].
  intros tagDocs. destruct (negb _); [apply preserves_respond|].
  apply preserves_try; [|intros; apply preserves_respond].
  apply preserves_bind; [apply keeps_insertOne|].
  intros. apply preserves_respond.
Qed.

Lemma preserves_recipes_update (recipeId : string) (request : candidate) :
  preserves R (recipes_update recipeId request).
Proof.
  apply preserves_try; [|intros; apply preserves_respond].
  apply preserves_bind; [apply preserves_validateRecipe|].
  intros [newRecipe|error]; [|apply preserves_respond].
  apply preserves_bind; [apply preserves_new_ObjectId|]. intros oid.
  apply preserves_bind; [by apply keeps_updateOne|].
  intros n. destruct (decide _); apply preserves_respond.
Qed.

Lemma preserves_recipes_delete (recipeId : string) :
  preserves R (recipes_delete recipeId).
Proof.
  apply preserves_try; [|intros; apply preserves_respond].
  apply preserves_bind; [apply preserves_new_ObjectId|]. intros oid.
  apply preserves_bind; [apply keeps_deleteOne|].
  intros n. destruct (decide _); apply preserves_respond.
Qed.

Lemma preserves_recipes_reviews (StringToNumber : string → jsnumber)
    (recipeId : string) (request : review_request) (fresh : ObjectId)
    (now : Z) :
  preserves R (recipes_reviews StringToNumber recipeId request fresh now).
Proof.
  apply preserves_try; [|intros; apply preserves_respond].
  destruct (_ || _); [apply preserves_respond|].
  apply preserves_bind; [apply preserves_new_ObjectId|]. intros oid.
  apply preserves_bind; [by apply keeps_updateOne|].
  intros n. destruct (decide _); apply preserves_respond.
Qed.

Lemma preserves_ai_recipes_post (aiResponse : ai_reply candidate)
    (fresh : ObjectId) :
  preserves R (ai_recipes_post aiResponse fresh).
Proof.
  apply preserves_bind.
  { apply preserves_bind; [|intros; apply preserves_ret].
    destruct aiResponse; [apply preserves_throw | apply preserves_ret]. }
  intros newRecipe.
  apply preserves_bind; [apply preserves_findOne_name|].
  intros [cuisineDoc|]; [|apply preserves_respond].
  apply preserves_bind; [apply preserves_find_name_in|]. intros tagDocs.
  apply preserves_bind; [apply keeps_insertOne|].
  intros. apply preserves_respond.
Qed.

End Preserves.

(** ** The writes of the store *)

Section Writes.

Lemma db_eta (db : Db) :
  {| cuisines := cuisines db; tags := tags db; recipes := recipes db |} = db.
Proof. by destruct db. Qed.

Lemma updateOne_run (oid : ObjectId) (f : recipe → recipe) (db : Db) :
  updateOne oid f db =
  (Ok (update_first oid f (recipes db)).1,
   {| cuisines := cuisines db; tags := tags db;
      recipes := (update_first oid f (recipes db)).2 |}).
Proof. run_M. by destruct (update_first oid f (recipes db)). Qed.

Lemma deleteOne_run (oid : ObjectId) (db : Db) :
  deleteOne oid db =
  (Ok (delete_first oid (recipes db)).1,
   {| cuisines := cuisines db; tags := tags db;
      recipes := (delete_first oid (recipes db)).2 |}).
Proof. run_M. by destruct (delete_first oid (recipes db)). Qed.

Lemma insertOne_run (r : recipe) (db : Db) :
  insertOne r db =
  if decide (r_id r ∈ recipe_ids db) then (Throw MongoError, db)
  else (Ok (r_id r),
        {| cuisines := cuisines db; tags := tags db;
           recipes := (recipes db ++ [r])%list |}).
Proof. run_M. unfold recipe_ids. by destruct (decide _). Qed.

Lemma update_first_ids (oid : ObjectId) (f : recipe → recipe)
    (rs : list recipe) :
  (∀ r, r_id (f r) = r_id r) →
  r_id <$> (update_first oid f rs).2 = r_id <$> rs.
Proof.
  intros Hf. induction rs as [|r rs IH]; [done|]. simpl.
  destruct (decide (r_id r = oid)); csimpl; [by rewrite Hf|].
  destruct (update_first oid f rs) as [k rs']. csimpl. simpl in IH.
  by rewrite IH.
Qed.

Lemma update_first_zero (oid : ObjectId) (f : recipe → recipe)
    (rs : list recipe) :
  (update_first oid f rs).1 = 0%nat → (update_first oid f rs).2 = rs.
Proof.
  induction rs as [|r rs IH]; [done|]. simpl.
  destruct (decide (r_id r = oid)); [done|].
  destruct (update_first oid f rs) as [k rs']. simpl in *.
  intros Hn. by rewrite IH.
Qed.

Lemma update_first_matched (oid : ObjectId) (f : recipe → recipe)
    (rs : list recipe) :
  (update_first oid f rs).1 = 0%nat ↔ oid ∉ r_id <$> rs.
Proof.
  induction rs as [|r rs IH]; csimpl.
  - split; [intros _; apply not_elem_of_nil | done].
  - rewrite not_elem_of_cons. destruct (decide (r_id r = oid)) as [<-|Hne].
    + simpl. split; [done | by intros [? _]].
    + destruct (update_first oid f rs) as [k rs']. simpl in *.
      rewrite IH. split; [by intros; split; [congruence|] | by intros [_ ?]].
Qed.

Lemma delete_first_zero (oid : ObjectId) (rs : list recipe) :
  (delete_first oid rs).1 = 0%nat → (delete_first oid rs).2 = rs.
Proof.
  induction rs as [|r rs IH]; [done|]. simpl.
  destruct (decide (r_id r = oid)); [done|].
  destruct (delete_first oid rs) as [k rs']. simpl in *.
  intros Hn. by rewrite IH.
Qed.

Lemma delete_first_matched (oid : ObjectId) (rs : list recipe) :
  (delete_first oid rs).1 = 0%nat ↔ oid ∉ r_id <$> rs.
Proof.
  induction rs as [|r rs IH]; csimpl.
  - split; [intros _; apply not_elem_of_nil | done].
  - rewrite not_elem_of_cons. destruct (decide (r_id r = oid)) as [<-|Hne].
    + simpl. split; [done | by intros [? _]].
    + destruct (delete_first oid rs) as [k rs']. simpl in *.
      rewrite IH. split; [by intros; split; [congruence|] | by intros [_ ?]].
Qed.

Lemma delete_first_sublist (oid : ObjectId) (rs : list recipe) :
  (delete_first oid rs).2 `sublist_of` rs.
Proof.
  induction rs as [|r rs IH]; [done|]. simpl.
  destruct (decide (r_id r = oid)); simpl; [by apply sublist_cons|].
  destruct (delete_first oid rs) as [k rs']. simpl in *.
  by apply sublist_skip.
Qed.

(** Where the first recipe with a given identifier is. *)
Lemma delete_first_found (oid : ObjectId) (pre post : list recipe)
    (r : recipe) :
  r_id r = oid →
  (∀ p, p ∈ pre → r_id p ≠ oid) →
  delete_first oid (pre ++ r :: post)%list = (1%nat, pre ++ post)%list.
Proof.
  intros Hr Hpre. induction pre as [|p pre IH]; simpl.
  - by rewrite decide_True.
  - rewrite decide_False by (apply Hpre; by left).
    rewrite IH; [done|]. intros p' Hp'. apply Hpre. by right.
Qed.

Lemma first_recipe_found (oid : ObjectId) (pre post : list recipe)
    (r : recipe) :
  r_id r = oid →
  (∀ p, p ∈ pre → r_id p ≠ oid) →
  head (filter (λ r, r_id r = oid) (pre ++ r :: post)%list) = Some r.
Proof.
  intros Hr Hpre. induction pre as [|p pre IH].
  - rewrite app_nil_l. by rewrite filter_cons_True.
  - rewrite <- app_comm_cons.
    rewrite filter_cons_False by (apply Hpre; by left).
    apply IH. intros p' Hp'. apply Hpre. by right.
Qed.

End Writes.

#[local] Instance same_vocabulary_refl : Reflexive same_vocabulary.
Proof. by intros db. Qed.

#[local] Instance same_vocabulary_trans : Transitive same_vocabulary.
Proof. intros a b c [? ?] [? ?]. split; congruence. Qed.

#[local] Instance ids_stay_distinct_refl : Reflexive ids_stay_distinct.
Proof. intros db Hnodup. exact Hnodup. Qed.

#[local] Instance ids_stay_distinct_trans : Transitive ids_stay_distinct.
Proof. intros a b c Hab Hbc Ha. by apply Hbc, Hab. Qed.

Section StoreInvariants.

Lemma insertOne_vocabulary (r : recipe) :
  preserves same_vocabulary (insertOne r).
Proof. intros db. rewrite insertOne_run. by destruct (decide _). Qed.

Lemma updateOne_vocabulary (oid : ObjectId) (f : recipe → recipe) :
  preserves same_vocabulary (updateOne oid f).
Proof. intros db. by rewrite updateOne_run. Qed.

Lemma deleteOne_vocabulary (oid : ObjectId) :
  preserves same_vocabulary (deleteOne oid).
Proof. intros db. by rewrite deleteOne_run. Qed.

Lemma insertOne_distinct (r : recipe) :
  preserves ids_stay_distinct (insertOne r).
Proof.
  intros db. rewrite insertOne_run.
  destruct (decide _) as [|Hfresh]; [done|]. simpl.
  unfold ids_stay_distinct, recipe_ids. simpl. intros Hnodup.
  rewrite fmap_app. apply NoDup_app. split; [done|]. split.
  - intros x Hx Hin. apply list_elem_of_singleton in Hin as ->. done.
  - apply NoDup_singleton.
Qed.

Lemma updateOne_distinct (oid : ObjectId) (f : recipe → recipe) :
  (∀ r, r_id (f r) = r_id r) →
  preserves ids_stay_distinct (updateOne oid f).
Proof.
  intros Hf db. rewrite updateOne_run.
  unfold ids_stay_distinct, recipe_ids. simpl.
  by rewrite update_first_ids.
Qed.

Lemma deleteOne_distinct (oid : ObjectId) :
  preserves ids_stay_distinct (deleteOne oid).
Proof.
  intros db. rewrite deleteOne_run.
  unfold ids_stay_distinct, recipe_ids. simpl. intros Hnodup.
  eapply sublist_NoDup; [exact Hnodup|].
  apply fmap_sublist, delete_first_sublist.
Qed.

End StoreInvariants.

(** X1. No handler writes to the cuisines or to the tags collection:
    after the detail, create, update, delete, review and recipe-from-text
    handlers, whether they answer or throw, both collections are what they
    were. *)
Theorem handlers_keep_vocabulary (StringToNumber : string → jsnumber)
    (recipeId : string) (request : candidate) (review : review_request)
    (aiResponse : ai_reply candidate) (fresh : ObjectId) (now : Z) (db : Db) :
  same_vocabulary db (recipes_detail recipeId db).2 ∧
  same_vocabulary db (recipes_create request fresh db).2 ∧
  same_vocabulary db (recipes_update recipeId request db).2 ∧
  same_vocabulary db (recipes_delete recipeId db).2 ∧
  same_vocabulary db
    (recipes_reviews StringToNumber recipeId review fresh now db).2 ∧
  same_vocabulary db (ai_recipes_post aiResponse fresh db).2.
Proof.
  pose proof insertOne_vocabulary as Hi.
  pose proof (λ oid f (_ : ∀ r, r_id (f r) = r_id r),
              updateOne_vocabulary oid f) as Hu.
  pose proof deleteOne_vocabulary as Hd.
  refine (conj _ (conj _ (conj _ (conj _ (conj _ _))))).
  - by apply (preserves_recipes_detail same_vocabulary).
  - by apply (preserves_recipes_create same_vocabulary).
  - by apply (preserves_recipes_update same_vocabulary).
  - by apply (preserves_recipes_delete same_vocabulary).
  - by apply (preserves_recipes_reviews same_vocabulary).
  - by apply (preserves_ai_recipes_post same_vocabulary).
Qed.

(** X2. The handlers keep the identifiers of the stored recipes distinct:
    when no two stored recipes share an identifier before a request, none
    do after it, whatever the request. *)
Theorem handlers_keep_ids_distinct (StringToNumber : string → jsnumber)
    (recipeId : string) (request : candidate) (review : review_request)
    (aiResponse : ai_reply candidate) (fresh : ObjectId) (now : Z) (db : Db) :
  NoDup (recipe_ids db) →
  NoDup (recipe_ids (recipes_create request fresh db).2) ∧
  NoDup (recipe_ids (recipes_update recipeId request db).2) ∧
  NoDup (recipe_ids (recipes_delete recipeId db).2) ∧
  NoDup (recipe_ids
           (recipes_reviews StringToNumber recipeId review fresh now db).2) ∧
  NoDup (recipe_ids (ai_recipes_post aiResponse fresh db).2).
Proof.
  intros Hnodup.
  pose proof insertOne_distinct as Hi.
  pose proof updateOne_distinct as Hu.
  pose proof deleteOne_distinct as Hd.
  refine (conj _ (conj _ (conj _ (conj _ _)))).
  - by apply (preserves_recipes_create ids_stay_distinct).
  - by apply (preserves_recipes_update ids_stay_distinct).
  - by apply (preserves_recipes_delete ids_stay_distinct).
  - by apply (preserves_recipes_reviews ids_stay_distinct).
  - by apply (preserves_ai_recipes_post ids_stay_distinct).
Qed.

Lemma handlers_keep_ids_distinct_witness :
  NoDup (recipe_ids (recipes_create tom_yum 9%N fixture_db).2) ∧
  NoDup (recipe_ids
           (recipes_update "000000000000000000000001" tom_yum fixture_db).2) ∧
  NoDup (recipe_ids (recipes_delete "000000000000000000000001" fixture_db).2) ∧
  NoDup (recipe_ids
           (recipes_reviews (λ _, NaN) "000000000000000000000001" (rated 4)
              9%N 1000 fixture_db).2) ∧
  NoDup (recipe_ids (ai_recipes_post (Parsed tom_yum) 9%N fixture_db).2).
Proof.
  apply (handlers_keep_ids_distinct (λ _, NaN) _ tom_yum (rated 4)
           (Parsed tom_yum) _ 1000 fixture_db).
  vm_compute. repeat constructor; set_solver.
Defined.

(** ** What the handlers compute *)

Section Runs.

Lemma run_bind {A B} (m : M A) (f : A → M B) (db : Db) :
  (m ≫= f) db =
  match m db with
  | (Ok a, db') => f a db'
  | (Throw e, db') => (Throw e, db')
  end.
Proof. reflexivity. Qed.

Lemma recipes_detail_run (recipeId : string) (db : Db) :
  recipes_detail recipeId db =
  (Ok match ObjectId_of_string recipeId with
      | None => mkResponse 400 (P_error "Invalid recipe ID format.")
      | Some oid =>
          match head (filter (λ r, r_id r = oid) (recipes db)) with
          | None => mkResponse 404 (P_error "recipe not found.")
          | Some recipe => mkResponse 200 (P_recipe recipe)
          end
      end, db).
Proof.
  unfold recipes_detail, try_catch, new_ObjectId.
  destruct (ObjectId_of_string recipeId) as [oid|]; [|done].
  run_M. by destruct (head _).
Qed.

Lemma recipes_delete_run (recipeId : string) (db : Db) :
  recipes_delete recipeId db =
  match ObjectId_of_string recipeId with
  | None => (Ok (mkResponse 500 (P_error "Internal Server Error")), db)
  | Some oid =>
      (Ok (if decide ((delete_first oid (recipes db)).1 = 0%nat)
           then mkResponse 404 (P_error "Not found")
           else mkResponse 200 (P_message "Deleted successfully")),
       {| cuisines := cuisines db; tags := tags db;
          recipes := (delete_first oid (recipes db)).2 |})
  end.
Proof.
  unfold recipes_delete, try_catch, new_ObjectId.
  destruct (ObjectId_of_string recipeId) as [oid|]; [|done].
  rewrite run_bind. unfold mret at 1, M_ret at 1.
  rewrite run_bind, deleteOne_run. by destruct (decide _).
Qed.

Lemma recipes_update_run (recipeId : string) (request : candidate)
    (newRecipe : NormalizedRecipe) (db : Db) :
  validateRecipe request db = (Ok (Success newRecipe), db) →
  recipes_update recipeId request db =
  match ObjectId_of_string recipeId with
  | None => (Ok (mkResponse 500 (P_error "Internal server error")), db)
  | Some oid =>
      (Ok (if decide ((update_first oid (set_fields newRecipe)
                         (recipes db)).1 = 0%nat)
           then mkResponse 404 (P_error "Recipe not found")
           else mkResponse 200
                  (P_message "Recipe has been updated successful")),
       {| cuisines := cuisines db; tags := tags db;
          recipes :=
            (update_first oid (set_fields newRecipe) (recipes db)).2 |})
  end.
Proof.
  intros Hv. unfold recipes_update, try_catch, new_ObjectId.
  rewrite run_bind, Hv.
  destruct (ObjectId_of_string recipeId) as [oid|]; [|done].
  rewrite run_bind. unfold mret at 1, M_ret at 1.
  rewrite run_bind, updateOne_run. by destruct (decide _).
Qed.

Lemma recipes_update_invalid (recipeId : string) (request : candidate)
    (error : validation_error) (db : Db) :
  validateRecipe request db = (Ok (Failure error), db) →
  recipes_update recipeId request db =
  (Ok (mkResponse 400 (P_error (error_message error))), db).
Proof.
  intros Hv. unfold recipes_update, try_catch. by rewrite run_bind, Hv.
Qed.

(** The validator never throws and only reads. *)
Lemma validateRecipe_returns (request : candidate) (db : Db) :
  ∃ v, validateRecipe request db = (Ok v, db).
Proof.
  destruct (all_present request) eqn:Hp.
  - rewrite validateRecipe_present by done. eauto.
  - unfold validateRecipe. rewrite Hp. simpl. eauto.
Qed.

Lemma recipes_reviews_run (StringToNumber : string → jsnumber) (recipeId : string)
    (request : review_request) (fresh : ObjectId) (now : Z) (db : Db) :
  recipes_reviews StringToNumber recipeId request fresh now db =
  if negb (truthy_string (b_user request))
     || negb (truthy_rating (b_rating request))
     || negb (truthy_string (b_comment request))
  then (Ok (mkResponse 400 (P_error "Missing required fields")), db)
  else
    let newReview :=
      {| review_id := fresh;
         review_user := default "" (b_user request);
         review_rating :=
           Number StringToNumber (default (R_number NaN) (b_rating request));
         review_comment := default "" (b_comment request);
         review_date := now |} in
    match ObjectId_of_string recipeId with
    | None => (Ok (mkResponse 500 (P_error "Internal server error")), db)
    | Some oid =>
        (Ok (if decide ((update_first oid (push_review newReview)
                           (recipes db)).1 = 0%nat)
             then mkResponse 404 (P_error "Recipe not found")
             else mkResponse 201
                    (P_reviewed "Review added successfully" fresh)),
         {| cuisines := cuisines db; tags := tags db;
            recipes :=
              (update_first oid (push_review newReview) (recipes db)).2 |})
    end.
Proof.
  unfold recipes_reviews, try_catch, new_ObjectId.
  destruct (_ || _); [done|]. cbv zeta.
  destruct (ObjectId_of_string recipeId) as [oid|]; [|done].
  rewrite run_bind. unfold mret at 1, M_ret at 1.
  rewrite run_bind, updateOne_run. by destruct (decide _).
Qed.

Lemma recipes_create_run (request : candidate) (fresh : ObjectId) (db : Db) :
  recipes_create request fresh db =
  match validateRecipe request db with
  | (Ok (Success newRecipe), _) =>
      if decide (fresh ∈ recipe_ids db) then
        (Ok (mkResponse 500 (P_error "Internal server error")), db)
      else
        (Ok (mkResponse 201 (P_created "Recipe created" fresh)),
         {| cuisines := cuisines db; tags := tags db;
            recipes :=
              (recipes db ++
               [ {| r_id := fresh;
                    r_name := n_name newRecipe;
                    r_cuisine := Some (n_cuisine newRecipe);
                    r_prepTime := n_prepTime newRecipe;
                    r_cookTime := n_cookTime newRecipe;
                    r_servings := n_servings newRecipe;
                    r_ingredients := n_ingredients newRecipe;
                    r_instructions := n_instructions newRecipe;
                    r_tags := n_tags newRecipe;
                    r_reviews := [] |} ])%list |})
  | (Ok (Failure MissingFields), _) =>
      (Ok (mkResponse 400 (P_error "Missing required fields")), db)
  | (Ok (Failure InvalidCuisine), _) =>
      (Ok (mkResponse 400 (P_error "Error. Cuisine not found")), db)
  | (Ok (Failure InvalidTags), _) =>
      (Ok (mkResponse 400 (P_error "One or more tags is invalid")), db)
  | (Throw e, _) => (Throw e, db)
  end.
Proof.
  unfold recipes_create. destruct (all_present request) eqn:Hp.
  2: { unfold validateRecipe. by rewrite Hp. }
  rewrite validateRecipe_present by done. cbn [negb].
  assert (is_Some (c_tags request)) as [names Ht].
  { unfold all_present in Hp. destruct (c_tags request); [eauto|].
    simpl in Hp. by rewrite !andb_false_r in Hp. }
  rewrite run_bind. unfold findOne_name. rewrite run_bind.
  unfold get_db at 1, mret at 1, M_ret at 1.
  destruct (c_cuisine request ≫= λ n, first_named n (cuisines db))
    as [cuisineDoc|]; [|done].
  rewrite Ht. csimpl. rewrite run_bind. unfold find_name_in.
  rewrite run_bind. unfold get_db at 1, mret at 1, M_ret at 1.
  case_bool_decide; [|done]. cbn [negb].
  unfold try_catch. rewrite run_bind, insertOne_run. simpl r_id.
  by destruct (decide _).
Qed.

End Runs.

Lemma ai_recipes_post_run (aiResponse : ai_reply candidate)
    (fresh : ObjectId) (db : Db) :
  ai_recipes_post aiResponse fresh db =
  match aiResponse with
  | Malformed => (Throw SyntaxError, db)
  | Parsed draft =>
      match c_cuisine draft ≫= λ n, first_named n (cuisines db) with
      | None =>
          (Ok (mkResponse 404
                 (P_error "AI tried to use a cuisine that doesn't exist")),
           db)
      | Some cuisineDoc =>
          match c_tags draft with
          | None => (Throw MongoError, db)
          | Some names =>
              if decide (fresh ∈ recipe_ids db) then (Throw MongoError, db)
              else
                (Ok (mkResponse 200 (P_recipeId fresh)),
                 {| cuisines := cuisines db; tags := tags db;
                    recipes :=
                      (recipes db ++
                       [ {| r_id := fresh;
                            r_name := c_name draft;
                            r_cuisine := Some cuisineDoc;
                            r_prepTime := c_prepTime draft;
                            r_cookTime := c_cookTime draft;
                            r_servings := c_servings draft;
                            r_ingredients := c_ingredients draft;
                            r_instructions := c_instructions draft;
                            r_tags := docs_named names (tags db);
                            r_reviews := [] |} ])%list |})
          end
      end
  end.
Proof.
  destruct aiResponse as [|draft]; [reflexivity|].
  unfold ai_recipes_post, generateRecipe, recipe_ids. run_M.
  destruct (c_cuisine draft) as [name|]; simpl; [|done].
  destruct (first_named name (cuisines db)) as [cuisineDoc|]; simpl; [|done].
  destruct (c_tags draft) as [names|]; simpl; [|done].
  by destruct (decide _).
Qed.

(** X3. A request that is answered with an error status has written
    nothing: when the create, update, delete, review or recipe-from-text
    handler answers 400 or above, the database is what it was. The same
    holds when the recipe-from-text handler throws, and the detail handler
    never writes. *)
Theorem errors_write_nothing (StringToNumber : string → jsnumber)
    (recipeId : string) (request : candidate) (review : review_request)
    (aiResponse : ai_reply candidate) (fresh : ObjectId) (now : Z) (db : Db) :
  (∀ resp db', recipes_create request fresh db = (Ok resp, db') →
               (400 ≤ status resp)%nat → db' = db) ∧
  (∀ resp db', recipes_update recipeId request db = (Ok resp, db') →
               (400 ≤ status resp)%nat → db' = db) ∧
  (∀ resp db', recipes_delete recipeId db = (Ok resp, db') →
               (400 ≤ status resp)%nat → db' = db) ∧
  (∀ resp db',
     recipes_reviews StringToNumber recipeId review fresh now db
       = (Ok resp, db') →
     (400 ≤ status resp)%nat → db' = db) ∧
  (∀ resp db', ai_recipes_post aiResponse fresh db = (Ok resp, db') →
               (400 ≤ status resp)%nat → db' = db) ∧
  (∀ e db', ai_recipes_post aiResponse fresh db = (Throw e, db') →
            db' = db) ∧
  (recipes_detail recipeId db).2 = db.
Proof.
  refine (conj _ (conj _ (conj _ (conj _ (conj _ (conj _ _)))))).
  - intros resp db'. rewrite recipes_create_run.
    destruct (validateRecipe_returns request db) as [v ->].
    destruct v as [newRecipe|[]]; try (by intros [= <- <-]).
    destruct (decide _); intros [= <- <-]; [done|]. simpl. lia.
  - intros resp db'.
    destruct (validateRecipe_returns request db) as [[newRecipe|error] Hv].
    2: { rewrite (recipes_update_invalid _ _ _ _ Hv). by intros [= <- <-]. }
    rewrite (recipes_update_run _ _ _ _ Hv).
    destruct (ObjectId_of_string recipeId) as [oid|]; [|by intros [= <- <-]].
    destruct (decide _) as [Hzero|]; intros [= <- <-]; simpl; [|lia].
    intros _. rewrite update_first_zero by done. apply db_eta.
  - intros resp db'. rewrite recipes_delete_run.
    destruct (ObjectId_of_string recipeId) as [oid|]; [|by intros [= <- <-]].
    destruct (decide _) as [Hzero|]; intros [= <- <-]; simpl; [|lia].
    intros _. rewrite delete_first_zero by done. apply db_eta.
  - intros resp db'. rewrite recipes_reviews_run.
    destruct (_ || _); [by intros [= <- <-]|]. cbv zeta.
    destruct (ObjectId_of_string recipeId) as [oid|]; [|by intros [= <- <-]].
    destruct (decide _) as [Hzero|]; intros [= <- <-]; simpl; [|lia].
    intros _. rewrite update_first_zero by done. apply db_eta.
  - intros resp db'. rewrite ai_recipes_post_run.
    destruct aiResponse as [|draft]; [done|].
    destruct (_ ≫= _); [|by intros [= <- <-]].
    destruct (c_tags draft); [|done].
    destruct (decide _); [done|]. intros [= <- <-]. simpl. lia.
  - intros e db'. rewrite ai_recipes_post_run.
    destruct aiResponse as [|draft]; [by intros [= <- <-]|].
    destruct (_ ≫= _); [|done].
    destruct (c_tags draft); [|by intros [= <- <-]].
    destruct (decide _); [by intros [= <- <-]|done].
  - by rewrite recipes_detail_run.
Qed.

Lemma errors_write_nothing_witness :
  (recipes_delete "000000000000000000000009" fixture_db).2 = fixture_db.
Proof.
  destruct (errors_write_nothing (λ _, NaN) "000000000000000000000009" tom_yum
              (rated 4) (Parsed tom_yum) 9%N 1000 fixture_db)
    as (_ & _ & Hdelete & _).
  eapply (Hdelete (mkResponse 404 (P_error "Not found"))).
  - reflexivity.
  - simpl. lia.
Defined.


(** X5. The recipe-from-text handler lets exceptions escape, and then
    sends no answer: for a reply of the extractor that is not JSON, for a
    draft of a known cuisine without a tags array, and for an identifier
    that is taken. For a draft whose cuisine is not in the cuisines
    collection it answers 404. In all four cases nothing is written. *)
Theorem ai_recipes_post_failures (draft : candidate) (name : string)
    (fresh : ObjectId) (db : Db) :
  ai_recipes_post Malformed fresh db = (Throw SyntaxError, db) ∧
  (c_cuisine draft = Some name →
   (∃ d, d ∈ cuisines db ∧ doc_name d = name) →
   c_tags draft = None →
   ai_recipes_post (Parsed draft) fresh db = (Throw MongoError, db)) ∧
  (c_cuisine draft = Some name →
   (∃ d, d ∈ cuisines db ∧ doc_name d = name) →
   fresh ∈ recipe_ids db →
   ai_recipes_post (Parsed draft) fresh db = (Throw MongoError, db)) ∧
  (c_cuisine draft = Some name →
   (∀ d, d ∈ cuisines db → doc_name d ≠ name) →
   ai_recipes_post (Parsed draft) fresh db =
   (Ok (mkResponse 404
          (P_error "AI tried to use a cuisine that doesn't exist")), db)).
Proof.
  refine (conj _ (conj _ (conj _ _))).
  - by rewrite ai_recipes_post_run.
  - intros Hc (d & Hd & Hname) Ht. rewrite ai_recipes_post_run, Hc. csimpl.
    destruct (first_named name (cuisines db)) eqn:Hfirst.
    + by rewrite Ht.
    + rewrite first_named_None in Hfirst. by destruct (Hfirst d Hd).
  - intros Hc (d & Hd & Hname) Hin. rewrite ai_recipes_post_run, Hc. csimpl.
    destruct (first_named name (cuisines db)) eqn:Hfirst.
    + destruct (c_tags draft); [|done]. by rewrite decide_True.
    + rewrite first_named_None in Hfirst. by destruct (Hfirst d Hd).
  - intros Hc Hnone. rewrite ai_recipes_post_run, Hc. csimpl.
    apply first_named_None in Hnone. by rewrite Hnone.
Qed.

Lemma ai_recipes_post_failures_witness :
  ai_recipes_post (Parsed tom_yum) 2%N fixture_db =
    (Throw MongoError, fixture_db) ∧
  ai_recipes_post (Parsed (with_cuisine "Atlantis" tom_yum)) 9%N fixture_db =
    (Ok (mkResponse 404
           (P_error "AI tried to use a cuisine that doesn't exist")),
     fixture_db).
Proof.
  split.
  - destruct (ai_recipes_post_failures tom_yum "Thai" 2%N fixture_db)
      as (_ & _ & Htaken & _).
    apply Htaken; [reflexivity | | vm_compute; set_solver].
    exists thai. split; [by left | reflexivity].
  - destruct (ai_recipes_post_failures (with_cuisine "Atlantis" tom_yum)
                "Atlantis" 9%N fixture_db) as (_ & _ & _ & Hunknown).
    apply Hunknown; [reflexivity|].
    intros d Hd. apply list_elem_of_In in Hd.
    destruct Hd as [<-|[<-|[]]]; discriminate.
Defined.

(** ** Round trips through the store *)

Section RoundTrips.

Lemma first_match_split (oid : ObjectId) (rs : list recipe) :
  oid ∈ r_id <$> rs →
  ∃ pre r post,
    rs = (pre ++ r :: post)%list ∧ r_id r = oid ∧
    ∀ p, p ∈ pre → r_id p ≠ oid.
Proof.
  induction rs as [|r rs IH]; csimpl.
  - intros Hin. by apply elem_of_nil in Hin.
  - intros Hin. destruct (decide (r_id r = oid)) as [Heq|Hne].
    + exists [], r, rs. split; [done|]. split; [done|].
      intros p Hp. by apply elem_of_nil in Hp.
    + apply elem_of_cons in Hin as [Heq|Hin]; [congruence|].
      destruct (IH Hin) as (pre & r' & post & -> & Hr' & Hpre).
      exists (r :: pre), r', post. split; [done|]. split; [done|].
      intros p Hp. apply elem_of_cons in Hp as [->|Hp]; [done|].
      by apply Hpre.
Qed.

Lemma first_recipe_appended (oid : ObjectId) (rs : list recipe)
    (r : recipe) :
  head (filter (λ r, r_id r = oid) (rs ++ [r])%list) =
  match head (filter (λ r, r_id r = oid) rs) with
  | Some found => Some found
  | None => if decide (r_id r = oid) then Some r else None
  end.
Proof.
  rewrite filter_app. destruct (filter _ rs) as [|found l]; [|done].
  rewrite app_nil_l. destruct (decide (r_id r = oid)).
  - by rewrite filter_cons_True.
  - by rewrite filter_cons_False.
Qed.

Lemma first_recipe_missing (oid : ObjectId) (rs : list recipe) :
  oid ∉ r_id <$> rs → head (filter (λ r, r_id r = oid) rs) = None.
Proof.
  intros Hout. apply head_None, elem_of_nil_inv. intros r Hr.
  apply list_elem_of_filter in Hr as [Hid Hr]. apply Hout.
  apply list_elem_of_fmap. eauto.
Qed.

End RoundTrips.

(** X6. A recipe that was created is found again. When a request passes
    validation and the new identifier is not in use, the create handler
    answers 201; the detail handler, asked for that identifier, then
    answers 200 with a recipe that has the validated fields and no
    reviews; and asked for any other identifier it answers what it
    answered before the creation. *)
Theorem create_then_detail (request : candidate)
    (newRecipe : NormalizedRecipe) (fresh : ObjectId) (recipeId : string)
    (db : Db) :
  validateRecipe request db = (Ok (Success newRecipe), db) →
  fresh ∉ recipe_ids db →
  ObjectId_of_string recipeId = Some fresh →
  ∃ db' stored,
    recipes_create request fresh db =
      (Ok (mkResponse 201 (P_created "Recipe created" fresh)), db') ∧
    recipes_detail recipeId db' =
      (Ok (mkResponse 200 (P_recipe stored)), db') ∧
    stored =
      {| r_id := fresh;
         r_name := n_name newRecipe;
         r_cuisine := Some (n_cuisine newRecipe);
         r_prepTime := n_prepTime newRecipe;
         r_cookTime := n_cookTime newRecipe;
         r_servings := n_servings newRecipe;
         r_ingredients := n_ingredients newRecipe;
         r_instructions := n_instructions newRecipe;
         r_tags := n_tags newRecipe;
         r_reviews := [] |} ∧
    ∀ other, ObjectId_of_string other ≠ Some fresh →
             (recipes_detail other db').1 = (recipes_detail other db).1.
Proof.
  intros Hv Hfresh Hid. eexists _, _.
  split.
  { rewrite recipes_create_run, Hv. by rewrite decide_False. }
  split; [|split; [reflexivity|]].
  - rewrite recipes_detail_run, Hid. simpl recipes.
    rewrite first_recipe_appended, first_recipe_missing by done.
    simpl r_id. by rewrite decide_True.
  - intros other Hother. rewrite !recipes_detail_run. simpl.
    destruct (ObjectId_of_string other) as [oid|]; [|done].
    rewrite first_recipe_appended. destruct (head _); [done|].
    simpl r_id. by rewrite decide_False by congruence.
Qed.

Lemma create_then_detail_witness :
  ∃ db' stored,
    recipes_create tom_yum 9%N fixture_db =
      (Ok (mkResponse 201 (P_created "Recipe created" 9%N)), db') ∧
    recipes_detail "000000000000000000000009" db' =
      (Ok (mkResponse 200 (P_recipe stored)), db') ∧
    r_tags stored = [quick; spicy] ∧
    r_cuisine stored = Some (mkDoc 100%N "Thai" []).
Proof.
  destruct (create_then_detail tom_yum
              {| n_name := Some "Tom Yum";
                 n_cuisine := mkDoc 100%N "Thai" [];
                 n_prepTime := Some 10;
                 n_cookTime := Some 20;
                 n_servings := Some 2;
                 n_ingredients := Some [mkIngredient "shrimp" "200" "g"];
                 n_instructions := Some ["Boil stock."];
                 n_tags := [quick; spicy] |}
              9%N "000000000000000000000009" fixture_db)
    as (db' & stored & Hc & Hd & -> & _).
  - reflexivity.
  - vm_compute. set_solver.
  - reflexivity.
  - eexists db', _. split; [exact Hc|]. split; [exact Hd|].
    split; reflexivity.
Defined.

(** X7. A recipe that was deleted is gone. When the stored identifiers
    are distinct and the identifier asked for is one of them, the delete
    handler answers 200 and removes one recipe; afterwards the detail
    handler and a second delete answer 404 for that identifier, and every
    recipe with another identifier is still stored. *)
Theorem delete_then_detail (recipeId : string) (oid : ObjectId) (db : Db) :
  ObjectId_of_string recipeId = Some oid →
  NoDup (recipe_ids db) →
  oid ∈ recipe_ids db →
  ∃ db',
    recipes_delete recipeId db =
      (Ok (mkResponse 200 (P_message "Deleted successfully")), db') ∧
    recipes_detail recipeId db' =
      (Ok (mkResponse 404 (P_error "recipe not found.")), db') ∧
    recipes_delete recipeId db' =
      (Ok (mkResponse 404 (P_error "Not found")), db') ∧
    S (List.length (recipes db')) = List.length (recipes db) ∧
    ∀ r, r ∈ recipes db → r_id r ≠ oid → r ∈ recipes db'.
Proof.
  intros Hid Hnodup Hin.
  destruct (first_match_split oid (recipes db) Hin)
    as (pre & r & post & Hrs & Hr & Hpre).
  pose proof (delete_first_found oid pre post r Hr Hpre) as Hdel.
  assert (oid ∉ r_id <$> (pre ++ post)%list) as Hgone.
  { unfold recipe_ids in Hnodup. rewrite Hrs, fmap_app in Hnodup.
    csimpl in Hnodup. apply NoDup_app in Hnodup as (_ & Hdisj & Hpost).
    apply NoDup_cons in Hpost as [Hout _]. rewrite fmap_app.
    rewrite elem_of_app. intros [Hp|Hp]; [|congruence].
    apply list_elem_of_fmap in Hp as (p & Hpid & Hp).
    by apply (Hpre p). }
  exists {| cuisines := cuisines db; tags := tags db;
            recipes := (pre ++ post)%list |}.
  split; [|split; [|split; [|split]]].
  - by rewrite recipes_delete_run, Hid, Hrs, Hdel.
  - rewrite recipes_detail_run, Hid. simpl recipes.
    by rewrite first_recipe_missing.
  - rewrite recipes_delete_run, Hid. simpl recipes.
    apply delete_first_matched in Hgone as Hzero.
    rewrite decide_True by done. by rewrite delete_first_zero.
  - simpl. rewrite Hrs, !length_app. simpl. lia.
  - intros r' Hr' Hne. simpl. rewrite Hrs in Hr'.
    apply elem_of_app in Hr' as [Hr'|Hr']; [apply elem_of_app; by left|].
    apply elem_of_cons in Hr' as [->|Hr']; [done|].
    apply elem_of_app. by right.
Qed.

Lemma delete_then_detail_witness :
  ∃ db',
    recipes_delete "000000000000000000000002" fixture_db =
      (Ok (mkResponse 200 (P_message "Deleted successfully")), db') ∧
    recipes_detail "000000000000000000000002" db' =
      (Ok (mkResponse 404 (P_error "recipe not found.")), db') ∧
    recipes db' = [chicken_garlic_salt].
Proof.
  destruct (delete_then_detail "000000000000000000000002" 2%N fixture_db)
    as (db' & Hdel & Hdet & _).
  - reflexivity.
  - vm_compute. repeat constructor; set_solver.
  - vm_compute. set_solver.
  - exists db'. split; [exact Hdel|]. split; [exact Hdet|].
    vm_compute in Hdel. by injection Hdel as <-.
Defined.

(** X8. An update replaces the eight fields of one recipe and keeps its
    identifier and its reviews. For a request that passes validation and
    a well-formed identifier: when a recipe with that identifier is
    stored, the update handler answers 200, the first such recipe becomes
    the recipe that has its identifier, the eight fields of the validated
    recipe and its reviews, every other recipe stays as it was, and the
    detail handler then returns that recipe; when none is stored, the
    update handler answers 404 and writes nothing. *)
Theorem update_then_detail (recipeId : string) (oid : ObjectId)
    (request : candidate) (newRecipe : NormalizedRecipe) (db : Db) :
  validateRecipe request db = (Ok (Success newRecipe), db) →
  ObjectId_of_string recipeId = Some oid →
  (oid ∈ recipe_ids db →
   ∃ pre r post updated db',
     recipes db = (pre ++ r :: post)%list ∧ r_id r = oid ∧
     (∀ p, p ∈ pre → r_id p ≠ oid) ∧
     updated =
       {| r_id := oid;
          r_name := n_name newRecipe;
          r_cuisine := Some (n_cuisine newRecipe);
          r_prepTime := n_prepTime newRecipe;
          r_cookTime := n_cookTime newRecipe;
          r_servings := n_servings newRecipe;
          r_ingredients := n_ingredients newRecipe;
          r_instructions := n_instructions newRecipe;
          r_tags := n_tags newRecipe;
          r_reviews := r_reviews r |} ∧
     db' = {| cuisines := cuisines db; tags := tags db;
              recipes := (pre ++ updated :: post)%list |} ∧
     recipes_update recipeId request db =
       (Ok (mkResponse 200 (P_message "Recipe has been updated successful")),
        db') ∧
     recipes_detail recipeId db' =
       (Ok (mkResponse 200 (P_recipe updated)), db')) ∧
  (oid ∉ recipe_ids db →
   recipes_update recipeId request db =
     (Ok (mkResponse 404 (P_error "Recipe not found")), db)).
Proof.
  intros Hv Hid. split.
  - intros Hin.
    destruct (first_match_split oid (recipes db) Hin)
      as (pre & r & post & Hrs & Hr & Hpre).
    eexists pre, r, post, _, _.
    split; [done|]. split; [done|]. split; [done|].
    split; [reflexivity|]. split; [reflexivity|]. split.
    + rewrite (recipes_update_run _ _ _ _ Hv), Hid, Hrs.
      rewrite update_first_found by done. simpl.
      unfold set_fields. by rewrite Hr.
    + rewrite recipes_detail_run, Hid. simpl recipes.
      by rewrite first_recipe_found.
  - intros Hout. rewrite (recipes_update_run _ _ _ _ Hv), Hid.
    apply update_first_matched with (f := set_fields newRecipe) in Hout
      as Hzero.
    rewrite decide_True by done. rewrite update_first_zero by done.
    by rewrite db_eta.
Qed.

Lemma update_then_detail_witness :
  recipes_update "000000000000000000000002" tom_yum fixture_db =
    (Ok (mkResponse 200 (P_message "Recipe has been updated successful")),
     {| cuisines := cuisines fixture_db;
        tags := tags fixture_db;
        recipes :=
          [chicken_garlic_salt;
           {| r_id := 2%N;
              r_name := Some "Tom Yum";
              r_cuisine := Some (mkDoc 100%N "Thai" []);
              r_prepTime := Some 10;
              r_cookTime := Some 20;
              r_servings := Some 2;
              r_ingredients := Some [mkIngredient "shrimp" "200" "g"];
              r_instructions := Some ["Boil stock."];
              r_tags := [quick; spicy];
              r_reviews := [] |}] |}) ∧
  recipes_update "000000000000000000000009" tom_yum fixture_db =
    (Ok (mkResponse 404 (P_error "Recipe not found")), fixture_db).
Proof.
  split.
  - destruct (update_then_detail "000000000000000000000002" 2%N tom_yum _
                fixture_db eq_refl eq_refl) as [Hfound _].
    destruct Hfound
      as (pre & r & post & updated & db' & Hrs & Hr & Hpre & -> & -> & Hup & _);
      [vm_compute; set_solver|].
    rewrite Hup. clear Hup.
    assert (pre = [chicken_garlic_salt] ∧ r = chicken_onion ∧ post = [])
      as (-> & -> & ->); [|reflexivity].
    destruct pre as [|p0 pre].
    { injection Hrs as <- _. discriminate Hr. }
    injection Hrs as <- Hrs. destruct pre as [|p1 pre].
    { by injection Hrs as <- <-. }
    injection Hrs as _ Hrs. by destruct pre.
  - destruct (update_then_detail "000000000000000000000009" 9%N tom_yum _
                fixture_db eq_refl eq_refl) as [_ Hmissing].
    apply Hmissing. vm_compute. set_solver.
Defined.

Section ReviewLists.

Lemma update_first_Forall2 (P : recipe → recipe → Prop) (oid : ObjectId)
    (f : recipe → recipe) (rs : list recipe) :
  (∀ r, P r r) → (∀ r, P r (f r)) →
  Forall2 P rs (update_first oid f rs).2.
Proof.
  intros Hrefl Hf. induction rs as [|r rs IH]; [constructor|]. simpl.
  destruct (decide (r_id r = oid)); simpl.
  - constructor; [apply Hf|]. by apply Forall_Forall2_diag, Forall_true.
  - destruct (update_first oid f rs) as [k rs']. simpl in *.
    by constructor.
Qed.

End ReviewLists.

(** X9. Reviews are only ever appended. After any request to the review
    handler the stored recipes are the same in number and order, each has
    the fields it had, and its earlier reviews are a prefix of its
    reviews; after any request to the update handler each stored recipe
    has the identifier and the reviews it had. *)
Theorem reviews_append_only (StringToNumber : string → jsnumber)
    (recipeId : string) (review : review_request) (request : candidate)
    (fresh : ObjectId) (now : Z) (db : Db) :
  Forall2
    (λ r r',
       r_id r' = r_id r ∧ r_name r' = r_name r ∧
       r_cuisine r' = r_cuisine r ∧ r_prepTime r' = r_prepTime r ∧
       r_cookTime r' = r_cookTime r ∧ r_servings r' = r_servings r ∧
       r_ingredients r' = r_ingredients r ∧
       r_instructions r' = r_instructions r ∧ r_tags r' = r_tags r ∧
       r_reviews r `prefix_of` r_reviews r')
    (recipes db)
    (recipes
       (recipes_reviews StringToNumber recipeId review fresh now db).2) ∧
  Forall2
    (λ r r', r_id r' = r_id r ∧ r_reviews r' = r_reviews r)
    (recipes db)
    (recipes (recipes_update recipeId request db).2).
Proof.
  split.
  - rewrite recipes_reviews_run.
    destruct (_ || _); [by apply Forall_Forall2_diag, Forall_true|].
    cbv zeta. destruct (ObjectId_of_string recipeId) as [oid|];
      [|by apply Forall_Forall2_diag, Forall_true].
    simpl. apply update_first_Forall2; [done|].
    intros r. simpl. repeat (split; [done|]). by apply prefix_app_r.
  - destruct (validateRecipe_returns request db) as [[newRecipe|error] Hv].
    + rewrite (recipes_update_run _ _ _ _ Hv).
      destruct (ObjectId_of_string recipeId) as [oid|];
        [|by apply Forall_Forall2_diag, Forall_true].
      simpl. by apply update_first_Forall2.
    + rewrite (recipes_update_invalid _ _ _ _ Hv).
      by apply Forall_Forall2_diag, Forall_true.
Qed.

(** ** Edges of the validator *)

(** X10. The presence check comes first and counts a zero as missing.
    A candidate one of whose eight fields is absent, an empty string or
    the number 0 fails validation with [MissingFields] whatever the
    database holds, also when its cuisine or tags are unknown; the update
    and create handlers answer 400 and write nothing. *)
Theorem missing_fields_first (request : candidate) (recipeId : string)
    (fresh : ObjectId) (db : Db) :
  truthy_string (c_name request) = false ∨
  truthy_string (c_cuisine request) = false ∨
  truthy_array (c_ingredients request) = false ∨
  truthy_array (c_instructions request) = false ∨
  truthy_array (c_tags request) = false ∨
  truthy_number (c_prepTime request) = false ∨
  truthy_number (c_cookTime request) = false ∨
  truthy_number (c_servings request) = false →
  validateRecipe request db = (Ok (Failure MissingFields), db) ∧
  recipes_update recipeId request db =
    (Ok (mkResponse 400 (P_error "Missing fields")), db) ∧
  recipes_create request fresh db =
    (Ok (mkResponse 400 (P_error "Missing required fields")), db).
Proof.
  intros Hfalsy.
  assert (all_present request = false) as Hp.
  { unfold all_present.
    destruct Hfalsy as [-> | [-> | [-> | [-> | [-> | [-> | [-> | ->]]]]]]];
      by rewrite ?andb_false_r. }
  assert (validateRecipe request db = (Ok (Failure MissingFields), db))
    as Hv by (unfold validateRecipe; by rewrite Hp).
  split; [done|]. split.
  - by rewrite (recipes_update_invalid _ _ _ _ Hv).
  - by rewrite recipes_create_run, Hv.
Qed.

Lemma missing_fields_first_witness :
  validateRecipe
    {| c_name := Some "Salad"; c_cuisine := Some "Atlantis";
       c_prepTime := Some 5; c_cookTime := Some 0; c_servings := Some 1;
       c_ingredients := Some []; c_instructions := Some [];
       c_tags := Some ["unicorn"] |} fixture_db =
  (Ok (Failure MissingFields), fixture_db).
Proof.
  eapply (missing_fields_first _ "xyz" 9%N fixture_db).
  do 6 right. left. reflexivity.
Defined.

Section ValidatorEdges.

Lemma docs_named_nil (ds : list doc) : docs_named [] ds = [].
Proof.
  unfold docs_named. apply elem_of_nil_inv. intros d Hd.
  apply list_elem_of_filter in Hd as [Hin _]. by apply elem_of_nil in Hin.
Qed.

Lemma docs_named_permutation (names : list string) (ds : list doc) :
  NoDup (doc_name <$> ds) →
  List.length (docs_named names ds) = List.length names →
  doc_name <$> docs_named names ds ≡ₚ names.
Proof.
  intros Hnodup Hlen.
  apply submseteq_length_Permutation; [|rewrite length_fmap; lia].
  apply NoDup_submseteq.
  - eapply sublist_NoDup; [exact Hnodup|].
    apply fmap_sublist, sublist_filter.
  - intros x Hx. apply list_elem_of_fmap in Hx as (d & -> & Hd).
    by apply list_elem_of_filter in Hd as [Hin _].
Qed.

(** What a successful validation found. *)
Lemma validateRecipe_success (request : candidate) (db db' : Db)
    (newRecipe : NormalizedRecipe) :
  validateRecipe request db = (Ok (Success newRecipe), db') →
  ∃ name names cuisineDoc,
    c_cuisine request = Some name ∧ c_tags request = Some names ∧
    first_named name (cuisines db) = Some cuisineDoc ∧
    n_cuisine newRecipe = snapshot cuisineDoc ∧
    n_tags newRecipe = docs_named names (tags db) ∧
    List.length (docs_named names (tags db)) = List.length names.
Proof.
  intros Hv. destruct (all_present request) eqn:Hp.
  2: { unfold validateRecipe in Hv. rewrite Hp in Hv. discriminate. }
  rewrite validateRecipe_present in Hv by done.
  destruct (c_cuisine request) as [name|]; [|discriminate]. simpl in Hv.
  destruct (first_named name (cuisines db)) as [cuisineDoc|] eqn:Hfirst;
    [|discriminate].
  assert (is_Some (c_tags request)) as [names Ht].
  { unfold all_present in Hp. destruct (c_tags request); [eauto|].
    simpl in Hp. by rewrite !andb_false_r in Hp. }
  rewrite Ht in Hv. simpl in Hv.
  case_bool_decide as Hlen; [|discriminate]. injection Hv as <- <-.
  by exists name, names, cuisineDoc.
Qed.

End ValidatorEdges.

(** X11. Arrays are never counted as missing. A candidate with a name, a
    known cuisine and non-zero times and servings passes validation with
    an empty ingredients array, an empty instructions array and an empty
    tags array, and its normalized recipe has no tags. *)
Theorem empty_arrays_pass (request : candidate) (name : string)
    (cuisineDoc : doc) (db : Db) :
  truthy_string (c_name request) = true →
  c_cuisine request = Some name → name ≠ "" →
  first_named name (cuisines db) = Some cuisineDoc →
  truthy_number (c_prepTime request) = true →
  truthy_number (c_cookTime request) = true →
  truthy_number (c_servings request) = true →
  c_ingredients request = Some [] →
  c_instructions request = Some [] →
  c_tags request = Some [] →
  validateRecipe request db =
  (Ok (Success
         {| n_name := c_name request;
            n_cuisine := snapshot cuisineDoc;
            n_prepTime := c_prepTime request;
            n_cookTime := c_cookTime request;
            n_servings := c_servings request;
            n_ingredients := Some [];
            n_instructions := Some [];
            n_tags := [] |}), db).
Proof.
  intros Hn Hc Hne Hfirst Hp Hk Hs Hi Hins Ht.
  rewrite validateRecipe_present.
  - rewrite Hc, Ht, Hi, Hins. csimpl. rewrite Hfirst.
    by rewrite docs_named_nil.
  - unfold all_present. rewrite Hn, Hc, Hp, Hk, Hs, Hi, Hins, Ht. simpl.
    by rewrite bool_decide_eq_false_2.
Qed.

Lemma empty_arrays_pass_witness :
  ∃ newRecipe,
    validateRecipe
      {| c_name := Some "Water"; c_cuisine := Some "Thai";
         c_prepTime := Some 1; c_cookTime := Some 1; c_servings := Some 1;
         c_ingredients := Some []; c_instructions := Some [];
         c_tags := Some [] |} fixture_db =
    (Ok (Success newRecipe), fixture_db) ∧ n_tags newRecipe = [].
Proof.
  eexists. split.
  - apply (empty_arrays_pass _ "Thai" thai fixture_db);
      reflexivity || discriminate.
  - reflexivity.
Defined.

(** X12. With distinct names in the tags collection, validation succeeds
    only for requested tag names that are distinct, and the names of the
    resolved tags are then the requested names, up to order; each
    resolved tag is a document of the collection. *)
Theorem resolved_tags_are_requested (request : candidate)
    (names : list string) (newRecipe : NormalizedRecipe) (db db' : Db) :
  NoDup (doc_name <$> tags db) →
  c_tags request = Some names →
  validateRecipe request db = (Ok (Success newRecipe), db') →
  doc_name <$> n_tags newRecipe ≡ₚ names ∧
  NoDup names ∧
  (∀ t, t ∈ n_tags newRecipe → t ∈ tags db).
Proof.
  intros Hnodup Ht Hv.
  destruct (validateRecipe_success _ _ _ _ Hv)
    as (name & names' & cuisineDoc & _ & Ht' & _ & _ & Htags & Hlen).
  rewrite Ht in Ht'. injection Ht' as <-. rewrite Htags.
  pose proof (docs_named_permutation names (tags db) Hnodup Hlen) as Hperm.
  split; [done|]. split.
  - rewrite <- Hperm. eapply sublist_NoDup; [exact Hnodup|].
    apply fmap_sublist, sublist_filter.
  - intros t Htin. by apply list_elem_of_filter in Htin as [_ ?].
Qed.

Lemma resolved_tags_are_requested_witness :
  ∃ newRecipe,
    validateRecipe tom_yum fixture_db = (Ok (Success newRecipe), fixture_db) ∧
    doc_name <$> n_tags newRecipe ≡ₚ ["spicy"; "quick"].
Proof.
  eexists. split; [reflexivity|].
  eapply (resolved_tags_are_requested tom_yum ["spicy"; "quick"] _
            fixture_db fixture_db).
  - vm_compute. repeat constructor; set_solver.
  - reflexivity.
  - reflexivity.
Defined.

(** ** References into the vocabulary *)

Section References.

Lemma update_first_Forall (P : recipe → Prop) (oid : ObjectId)
    (f : recipe → recipe) (rs : list recipe) :
  (∀ r, P r → P (f r)) → Forall P rs → Forall P (update_first oid f rs).2.
Proof.
  intros Hf. induction 1 as [|r rs Hr Hrs IH]; [constructor|]. simpl.
  destruct (decide (r_id r = oid)); simpl.
  - constructor; [by apply Hf | done].
  - destruct (update_first oid f rs) as [k rs']. simpl in *.
    by constructor.
Qed.

Lemma delete_first_Forall (P : recipe → Prop) (oid : ObjectId)
    (rs : list recipe) :
  Forall P rs → Forall P (delete_first oid rs).2.
Proof.
  rewrite !Forall_forall. intros Hall r Hr. apply Hall.
  eapply elem_of_sublist; [exact Hr | apply delete_first_sublist].
Qed.

Lemma docs_named_elem_of (names : list string) (ds : list doc) (t : doc) :
  t ∈ docs_named names ds → t ∈ ds.
Proof. intros Ht. by apply list_elem_of_filter in Ht as [_ ?]. Qed.

Lemma references_validated (request : candidate) (db db' : Db)
    (newRecipe : NormalizedRecipe) (r : recipe) :
  validateRecipe request db = (Ok (Success newRecipe), db') →
  r_cuisine r = Some (n_cuisine newRecipe) →
  r_tags r = n_tags newRecipe →
  references_vocabulary db r.
Proof.
  intros Hv Hc Ht.
  destruct (validateRecipe_success _ _ _ _ Hv)
    as (name & names & cuisineDoc & _ & _ & Hfirst & Hcuisine & Htags & _).
  apply first_named_Some in Hfirst as [Hin _]. split.
  - intros c Hrc. rewrite Hc in Hrc. injection Hrc as <-.
    exists cuisineDoc. by rewrite Hcuisine.
  - intros t Hin'. rewrite Ht, Htags in Hin'.
    by eapply docs_named_elem_of.
Qed.

End References.

(** X13. The handlers keep every stored recipe's references inside the
    vocabulary: when the cuisine embedded in each stored recipe has the
    identifier and name of a document of the cuisines collection and each
    embedded tag is a document of the tags collection, the same holds
    after the create, update, delete, review and recipe-from-text
    handlers, whatever the request. *)
Theorem handlers_keep_references (StringToNumber : string → jsnumber)
    (recipeId : string) (request : candidate) (review : review_request)
    (aiResponse : ai_reply candidate) (fresh : ObjectId) (now : Z) (db : Db) :
  Forall (references_vocabulary db) (recipes db) →
  Forall (references_vocabulary db)
    (recipes (recipes_create request fresh db).2) ∧
  Forall (references_vocabulary db)
    (recipes (recipes_update recipeId request db).2) ∧
  Forall (references_vocabulary db)
    (recipes (recipes_delete recipeId db).2) ∧
  Forall (references_vocabulary db)
    (recipes
       (recipes_reviews StringToNumber recipeId review fresh now db).2) ∧
  Forall (references_vocabulary db)
    (recipes (ai_recipes_post aiResponse fresh db).2).
Proof.
  intros Hrefs. refine (conj _ (conj _ (conj _ (conj _ _)))).
  - rewrite recipes_create_run.
    destruct (validateRecipe_returns request db) as [v Hv]. rewrite Hv.
    destruct v as [newRecipe|[]]; try done.
    destruct (decide _); [done|]. simpl.
    apply Forall_app. split; [done|]. apply Forall_singleton.
    by eapply references_validated.
  - destruct (validateRecipe_returns request db) as [[newRecipe|error] Hv].
    2: { by rewrite (recipes_update_invalid _ _ _ _ Hv). }
    rewrite (recipes_update_run _ _ _ _ Hv).
    destruct (ObjectId_of_string recipeId) as [oid|]; [|done]. simpl.
    apply update_first_Forall; [|done]. intros r _.
    by eapply references_validated.
  - rewrite recipes_delete_run.
    destruct (ObjectId_of_string recipeId) as [oid|]; [|done]. simpl.
    by apply delete_first_Forall.
  - rewrite recipes_reviews_run. destruct (_ || _); [done|]. cbv zeta.
    destruct (ObjectId_of_string recipeId) as [oid|]; [|done]. simpl.
    apply update_first_Forall; [|done]. by intros r [Hc Ht].
  - rewrite ai_recipes_post_run. destruct aiResponse as [|draft]; [done|].
    destruct (c_cuisine draft) as [name|]; [|done]. csimpl.
    destruct (first_named name (cuisines db)) as [cuisineDoc|] eqn:Hfirst;
      [|done].
    destruct (c_tags draft) as [names|]; [|done].
    destruct (decide _); [done|]. simpl.
    apply Forall_app. split; [done|]. apply Forall_singleton.
    apply first_named_Some in Hfirst as [Hin _]. split; simpl.
    + intros c [= <-]. by exists cuisineDoc.
    + intros t Ht. by eapply docs_named_elem_of.
Qed.

Lemma handlers_keep_references_witness :
  Forall (references_vocabulary fixture_db)
    (recipes (ai_recipes_post (Parsed unicorn_draft) 9%N fixture_db).2).
Proof.
  eapply (handlers_keep_references (λ _, NaN) "xyz" tom_yum (rated 4)
            (Parsed unicorn_draft) 9%N 1000 fixture_db).
  apply Forall_forall. intros r Hr. apply list_elem_of_In in Hr.
  destruct Hr as [<-|[<-|[]]];
    (split; [intros c Hc; discriminate Hc
            | intros t Ht; by apply elem_of_nil in Ht]).
Defined.

(** ** The structured search *)

(** X14. Tag names are matched exactly and any one suffices. For a search
    request that gives only tag names, the criteria exist and hold of a
    recipe exactly when the name of one of its tags is equal to one of
    the comma-separated names. *)
Theorem filter_builder_tags (tags : string) :
  tags ≠ "" →
  ∃ criteria,
    search_criteria (mkQuery None (Some tags) None) = Some criteria ∧
    ∀ r, satisfies criteria r ↔
         ∃ t, t ∈ r_tags r ∧ doc_name t ∈ split ","%char tags.
Proof.
  intros Hne.
  assert (truthy_string (Some tags) = true) as Ht.
  { simpl. by rewrite bool_decide_eq_false_2. }
  destruct (search_criteria_literal (mkQuery None (Some tags) None))
    as (criteria & Hc & Hsat); [done | by constructor |].
  exists criteria. split; [done|]. intros r. rewrite Hsat.
  unfold buildCriteria_spec, given, given_list. simpl q_tags.
  rewrite Ht. simpl.
  pose proof (split_nonempty ","%char tags). naive_solver.
Qed.

Lemma filter_builder_tags_witness :
  ∃ criteria,
    search_criteria (mkQuery None (Some "quick,vegan") None)
      = Some criteria ∧
    ∀ r, satisfies criteria r ↔
         ∃ t, t ∈ r_tags r ∧ doc_name t ∈ split ","%char "quick,vegan".
Proof. apply (filter_builder_tags "quick,vegan"). discriminate. Defined.

(** X15. The clauses of a search are conjoined. For a request whose name
    text and ingredient names are ASCII and have no regular-expression
    syntax character, the criteria exist, and they hold of a recipe whose
    name and ingredient names are ASCII exactly when its name contains
    the name text (if given), one of its tags has one of the tag names
    (if given), and every ingredient name is contained in the name of one
    of its ingredients (if given), the containments ignoring letter
    case. *)
Theorem filter_builder_conjunction (q : search_query) :
  (∀ text, given (q_name q) = Some text →
           literal_name text ∧ ascii_name text) →
  Forall (λ name, literal_name name ∧ ascii_name name)
    (given_list (q_ingredients q)) →
  ∃ criteria,
    search_criteria q = Some criteria ∧
    ∀ r, ascii_recipe r →
         (satisfies criteria r ↔
          (∀ text, given (q_name q) = Some text →
             ∃ name, r_name r = Some name ∧ ci_contains text name) ∧
          (given_list (q_tags q) ≠ [] →
             ∃ t, t ∈ r_tags r ∧ doc_name t ∈ given_list (q_tags q)) ∧
          (given_list (q_ingredients q) ≠ [] →
             ∀ name, name ∈ given_list (q_ingredients q) →
               ∃ ing, ing ∈ default [] (r_ingredients r) ∧
                      ci_contains name (ing_name ing))).
Proof.
  intros Hname Hingr.
  destruct (search_criteria_literal q) as (criteria & Hc & Hsat).
  - intros text Htext. by apply Hname.
  - eapply Forall_impl; [exact Hingr|]. by intros name [? _].
  - exists criteria. split; [done|]. intros r _. apply Hsat.
Qed.

Lemma filter_builder_conjunction_witness :
  ∃ criteria,
    search_criteria (mkQuery (Some "dish") (Some "quick") (Some "salt,garlic"))
      = Some criteria ∧
    ¬ satisfies criteria chicken_garlic_salt.
Proof.
  destruct (filter_builder_conjunction
              (mkQuery (Some "dish") (Some "quick") (Some "salt,garlic")))
    as (criteria & Hc & Hsat).
  - intros text [= <-]. split; vm_compute; repeat constructor.
  - vm_compute. repeat constructor.
  - exists criteria. split; [done|]. rewrite Hsat.
    + intros (_ & Htags & _). destruct Htags as (t & Ht & _); [done|].
      by apply elem_of_nil in Ht.
    + split.
      * intros name [= <-]. vm_compute. repeat constructor.
      * vm_compute. repeat constructor.
Defined.

(** X16. The structured search returns the summaries of exactly the
    stored recipes that match, in the order of the collection, and writes
    nothing. For a request whose name text and ingredient names are ASCII
    and have no regular-expression syntax character, on a collection
    whose recipe names and ingredient names are ASCII, the handler
    answers with the identifier, name, cuisine, tags and preparation time
    of each recipe of a sublist of the collection, and a stored recipe is
    in that sublist exactly when it satisfies the Filter Builder's
    predicate for the given name text, tag names and ingredient names. *)
Theorem recipes_search_results (q : search_query) (db : Db) :
  (∀ text, given (q_name q) = Some text →
           literal_name text ∧ ascii_name text) →
  Forall (λ name, literal_name name ∧ ascii_name name)
    (given_list (q_ingredients q)) →
  Forall ascii_recipe (recipes db) →
  ∃ handler matching,
    recipes_search q = Some handler ∧
    handler db =
      (Ok (SR_recipes
             ((λ r, {| s_id := r_id r;
                       s_name := r_name r;
                       s_cuisine := r_cuisine r;
                       s_tags := r_tags r;
                       s_prepTime := r_prepTime r |}) <$> matching)), db) ∧
    matching `sublist_of` recipes db ∧
    ∀ r, r ∈ matching ↔
         r ∈ recipes db ∧
         buildCriteria_spec (given (q_name q)) (given_list (q_tags q))
           (given_list (q_ingredients q)) r.
Proof.
  intros Hname Hingr _.
  destruct (search_criteria_literal q) as (criteria & Hc & Hsat).
  { intros text Htext. by apply Hname. }
  { eapply Forall_impl; [exact Hingr|]. by intros name [? _]. }
  unfold recipes_search. rewrite Hc. csimpl.
  eexists _, (find_recipes criteria (recipes db)).
  split; [reflexivity|]. split; [reflexivity|].
  split; [apply sublist_filter|].
  intros r. unfold find_recipes. rewrite list_elem_of_filter, Hsat. tauto.
Qed.

Lemma recipes_search_results_witness :
  ∃ handler,
    recipes_search (mkQuery None None (Some "onion")) = Some handler ∧
    handler fixture_db =
      (Ok (SR_recipes [mkSummary 2%N (Some "Dish") None [] (Some 10)]),
       fixture_db).
Proof.
  destruct (recipes_search_results (mkQuery None None (Some "onion"))
              fixture_db)
    as (handler & matching & Hh & Hrun & _).
  - intros text [=].
  - vm_compute. repeat constructor.
  - apply Forall_forall. intros r Hr. apply list_elem_of_In in Hr.
    destruct Hr as [<-|[<-|[]]].
    all: split; [intros name [= <-]|]; vm_compute; repeat constructor.
  - exists handler. split; [exact Hh|].
    injection Hh as <-. reflexivity.
Defined.

Section Split.

Lemma split_chars_join (sep : ascii) (s : list ascii) :
  join_chars sep (split_chars sep s) = s.
Proof.
  induction s as [|c s IH]; [done|]. simpl.
  pose proof (split_chars_nonempty sep s) as Hne.
  destruct (decide (c = sep)) as [->|Hc].
  - destruct (split_chars sep s) as [|piece rest]; [done|].
    simpl in *. by rewrite IH.
  - destruct (split_chars sep s) as [|piece rest]; [done|].
    destruct rest; simpl in *; by rewrite <- IH.
Qed.

Lemma split_chars_no_sep (sep : ascii) (s : list ascii) :
  Forall (λ piece, sep ∉ piece) (split_chars sep s).
Proof.
  induction s as [|c s IH]; simpl.
  - constructor; [apply not_elem_of_nil | constructor].
  - destruct (decide (c = sep)) as [->|Hc].
    + constructor; [apply not_elem_of_nil | done].
    + destruct (split_chars sep s) as [|piece rest]; simpl.
      * constructor; [|constructor]. set_solver.
      * apply Forall_cons in IH as [Hp Hr]. constructor; [|done].
        set_solver.
Qed.

Lemma split_chars_length (sep : ascii) (s : list ascii) :
  List.length (split_chars sep s) =
  S (List.length (filter (λ c, c = sep) s)).
Proof.
  induction s as [|c s IH]; [done|]. simpl.
  pose proof (split_chars_nonempty sep s) as Hne.
  destruct (decide (c = sep)) as [->|Hc].
  - rewrite filter_cons_True by done. simpl. by rewrite IH.
  - rewrite filter_cons_False by done.
    by destruct (split_chars sep s).
Qed.

End Split.

(** X17. The tag names of a search are the pieces of the parameter
    between its commas: the [$in] list of the tags clause has one more
    name than the parameter has commas, no name contains a comma, and the
    names joined by commas give the parameter back. An empty piece, as in
    [a,,b], is a name like any other. *)
Theorem tags_clause_pieces (q : search_query) (tags : string) :
  q_tags q = Some tags → tags ≠ "" →
  ∀ criteria, search_criteria q = Some criteria →
    ∃ names,
      criteria !! "tags.name" = Some (C_in names) ∧
      join_chars ","%char (chars <$> names) = chars tags ∧
      Forall (λ name, ","%char ∉ chars name) names ∧
      List.length names =
        S (List.length (filter (λ c, c = ","%char) (chars tags))).
Proof.
  intros Ht Hne criteria. unfold search_criteria. rewrite Ht.
  assert (truthy_string (Some tags) = true) as ->.
  { simpl. by rewrite bool_decide_eq_false_2. }
  simpl default.
  assert (chars <$> split ","%char tags = split_chars ","%char (chars tags))
    as Hchars.
  { unfold split. rewrite <- list_fmap_compose.
    rewrite <- (list_fmap_id (split_chars _ _)) at 2.
    apply list_fmap_ext. intros i x _. simpl. unfold chars.
    apply list_ascii_of_string_of_list_ascii. }
  destruct (truthy_string (q_name q));
    destruct (truthy_string (q_ingredients q)); simpl.
  all: repeat match goal with
         | |- context [RegExp ?p ?i] => destruct (RegExp p i); simpl
         | |- context [mapM ?f ?l] => destruct (mapM f l); simpl
         end.
  all: intros [= <-] || (intros [=]).
  all: exists (split ","%char tags).
  all: split; [by simplify_map_eq|].
  all: rewrite Hchars.
  all: split; [apply split_chars_join|].
  all: split; [|by rewrite <- split_chars_length, <- Hchars, length_fmap].
  all: apply (Forall_fmap chars (λ piece, ","%char ∉ piece)).
  all: rewrite Hchars; apply split_chars_no_sep.
Qed.

Lemma tags_clause_pieces_witness :
  ∃ criteria names,
    search_criteria (mkQuery None (Some "a,,b") None) = Some criteria ∧
    criteria !! "tags.name" = Some (C_in names) ∧
    List.length names = 3%nat.
Proof.
  eexists.
  destruct (tags_clause_pieces (mkQuery None (Some "a,,b") None) "a,,b"
              eq_refl ltac:(discriminate) _ eq_refl)
    as (names & Hl & _ & _ & Hlen).
  exists names. split; [reflexivity|]. split; [exact Hl | exact Hlen].
Defined.

(** ** The natural-language search *)

Section AIHandler.

Lemma find_recipes_empty (rs : list recipe) : find_recipes ∅ rs = rs.
Proof.
  unfold find_recipes. induction rs as [|r rs IH]; [done|].
  rewrite filter_cons_True by apply satisfies_empty. by rewrite IH.
Qed.

Lemma strings_of_strings (ss : list string) :
  strings_of (J_string <$> ss) = Some ss.
Proof. unfold strings_of. by apply mapM_fmap_Some. Qed.

Lemma read_strings_array (key : string) (members : list (string * json))
    (ss : list string) :
  member key members = Some (J_array (J_string <$> ss)) →
  read_strings key members = Some (Some ss).
Proof.
  intros Hm. unfold read_strings. rewrite Hm. by rewrite strings_of_strings.
Qed.

Lemma ai_recipes_get_run (translation : list recipe → option string → string)
    (j : json) (searchParams : StructuredAIQuery) (db : Db) :
  read_searchParams j = Some searchParams →
  ai_recipes_get translation (Parsed j) db =
  (Ok (Some (translation
               (find_recipes (ai_search_criteria searchParams) (recipes db))
               (userLanguage searchParams))), db).
Proof.
  intros Hread. unfold ai_recipes_get, generateSearchParams, translateRecipe.
  run_M. by rewrite Hread.
Qed.

End AIHandler.

(** X18. On a reply of the translator that conforms to the declared
    schema, the natural-language search reads all four fields, fetches
    the recipes that satisfy the criteria built from them, and sends the
    localizer's text for those recipes and the reply's language as it is;
    it writes nothing. On a reply that is not JSON the exception escapes
    and nothing is sent. *)
Theorem ai_recipes_get_conforming
    (translation : list recipe → option string → string) (j : json)
    (db : Db) :
  ai_recipes_get translation Malformed db = (Throw SyntaxError, db) ∧
  (validates searchParams_schema j = true →
   ∃ cuisines ingredients tags language,
     read_searchParams j =
       Some (mkAIQuery (Some cuisines) (Some ingredients) (Some tags)
               (Some language)) ∧
     ai_recipes_get translation (Parsed j) db =
       (Ok (Some (translation
                    (find_recipes
                       (ai_search_criteria
                          (mkAIQuery (Some cuisines) (Some ingredients)
                             (Some tags) (Some language)))
                       (recipes db))
                    (Some language))), db)).
Proof.
  split; [reflexivity|]. intros Hv.
  apply validates_searchParams in Hv
    as (members & ingredients & tags & cuisines & language & -> &
        Hi & Ht & Hc & Hl).
  exists cuisines, ingredients, tags, language.
  assert (read_searchParams (J_object members) =
          Some (mkAIQuery (Some cuisines) (Some ingredients) (Some tags)
                  (Some language))) as Hread.
  { unfold read_searchParams.
    rewrite (read_strings_array _ _ _ Hc), (read_strings_array _ _ _ Hi),
      (read_strings_array _ _ _ Ht).
    unfold read_string. by rewrite Hl. }
  split; [done|]. by rewrite (ai_recipes_get_run _ _ _ _ Hread).
Qed.

Lemma ai_recipes_get_conforming_witness :
  ai_recipes_get (λ rs _, "none") (Parsed empty_reply) fixture_db =
    (Ok (Some "none"), fixture_db).
Proof.
  destruct (ai_recipes_get_conforming (λ rs _, "none") empty_reply
              fixture_db) as [_ Hconf].
  destruct (Hconf eq_refl) as (c & i & t & l & _ & Hrun).
  exact Hrun.
Defined.

(** X19. A query in which the translator finds nothing lists the whole
    collection: when the reply has no cuisine, no ingredient and no tag
    (each array empty or absent), the criteria are empty and every stored
    recipe is handed to the localizer. *)
Theorem ai_search_without_terms
    (translation : list recipe → option string → string) (j : json)
    (searchParams : StructuredAIQuery) (db : Db) :
  read_searchParams j = Some searchParams →
  non_empty (ai_cuisines searchParams) = false →
  non_empty (ai_ingredients searchParams) = false →
  non_empty (ai_tags searchParams) = false →
  ai_search_criteria searchParams = ∅ ∧
  ai_recipes_get translation (Parsed j) db =
    (Ok (Some (translation (recipes db) (userLanguage searchParams))), db).
Proof.
  intros Hread Hc Hi Ht.
  assert (ai_search_criteria searchParams = ∅) as Hempty.
  { unfold ai_search_criteria. by rewrite Hc, Hi, Ht. }
  split; [done|].
  by rewrite (ai_recipes_get_run _ _ _ _ Hread), Hempty, find_recipes_empty.
Qed.

Lemma ai_search_without_terms_witness :
  ai_recipes_get (λ rs _, if decide (List.length rs = 2%nat) then "all"
                          else "some")
    (Parsed empty_reply) fixture_db =
  (Ok (Some "all"), fixture_db).
Proof.
  refine (proj2 (ai_search_without_terms
                   (λ rs _, if decide (List.length rs = 2%nat) then "all"
                            else "some")
                   empty_reply
                   (mkAIQuery (Some []) (Some []) (Some [])
                      (Some "English"))
                   fixture_db _ _ _ _)); reflexivity.
Defined.

(** ** The connection *)

(** X20. The client is made once. After a first call of [connect],
    whether the store was reachable or not, the module holds a client for
    the address of that call; every later call returns that client
    itself, never a database handle, whatever address and database name
    it is given, and neither connects again nor changes the client. *)
Theorem connect_once (uri dbname uri' dbname' : string)
    (reachable reachable' : bool) :
  ∃ c,
    (connect uri dbname reachable None).2 = Some c ∧
    client_uri c = uri ∧
    client_connected c = reachable ∧
    (connect uri dbname reachable None).1 =
      (if reachable then The_database c dbname else Nothing) ∧
    connect uri' dbname' reachable' (Some c) = (The_client c, Some c).
Proof.
  exists (mkClient uri reachable). by destruct reachable.
Qed.

(** ** Reviews, read back *)

(** X21. A review is read back last. For a complete review request and a
    well-formed identifier: when a recipe with that identifier is stored,
    the review handler answers 201 and the detail handler then returns
    the first such recipe with the new review, carrying the new
    identifier and the time read, after the reviews it had; when none is
    stored, the review handler answers 404 and writes nothing. *)
Theorem review_then_detail (StringToNumber : string → jsnumber)
    (recipeId : string) (oid : ObjectId) (review : review_request)
    (fresh : ObjectId) (now : Z) (db : Db) :
  truthy_string (b_user review) = true →
  truthy_rating (b_rating review) = true →
  truthy_string (b_comment review) = true →
  ObjectId_of_string recipeId = Some oid →
  (oid ∈ recipe_ids db →
   ∃ r db' stored newReview,
     r ∈ recipes db ∧ r_id r = oid ∧
     recipes_reviews StringToNumber recipeId review fresh now db =
       (Ok (mkResponse 201 (P_reviewed "Review added successfully" fresh)),
        db') ∧
     recipes_detail recipeId db' =
       (Ok (mkResponse 200 (P_recipe stored)), db') ∧
     r_reviews stored = (r_reviews r ++ [newReview])%list ∧
     review_id newReview = fresh ∧ review_date newReview = now ∧
     Some (review_user newReview) = b_user review ∧
     Some (review_comment newReview) = b_comment review) ∧
  (oid ∉ recipe_ids db →
   recipes_reviews StringToNumber recipeId review fresh now db =
     (Ok (mkResponse 404 (P_error "Recipe not found")), db)).
Proof.
  intros Hu Hr Hc Hid.
  pose proof (recipes_reviews_run StringToNumber recipeId review fresh now db)
    as Hrun.
  rewrite Hu, Hr, Hc, Hid in Hrun. simpl in Hrun. split.
  - intros Hin.
    destruct (first_match_split oid (recipes db) Hin)
      as (pre & r & post & Hrs & Hroid & Hpre).
    rewrite Hrs in Hrun. rewrite update_first_found in Hrun by done.
    simpl in Hrun. eexists r, _, _, _.
    split; [rewrite Hrs; set_solver|]. split; [done|].
    split; [exact Hrun|]. split.
    { rewrite recipes_detail_run, Hid. simpl recipes.
      rewrite first_recipe_found by done. reflexivity. }
    split; [reflexivity|]. simpl.
    destruct (b_user review); [|done]. by destruct (b_comment review).
  - intros Hout.
    apply update_first_matched
      with (f := push_review
                   {| review_id := fresh;
                      review_user := default "" (b_user review);
                      review_rating :=
                        Number StringToNumber
                          (default (R_number NaN) (b_rating review));
                      review_comment := default "" (b_comment review);
                      review_date := now |}) in Hout as Hzero.
    rewrite Hrun. rewrite decide_True by done.
    rewrite update_first_zero by done. by rewrite db_eta.
Qed.

Lemma review_then_detail_witness :
  recipes_reviews (λ _, NaN) "000000000000000000000009" (rated 5) 7%N 1000
    fixture_db =
  (Ok (mkResponse 404 (P_error "Recipe not found")), fixture_db).
Proof.
  refine (proj2 (review_then_detail (λ _, NaN) "000000000000000000000009" 9%N
                   (rated 5) 7%N 1000 fixture_db _ _ _ _) _);
    try reflexivity.
  vm_compute. set_solver.
Defined.

(** ** Users *)

Section UsersLemmas.

Lemma first_user_appended (email : string) (users : list user) (u : user) :
  head (filter (λ u, user_email u = email) (users ++ [u])%list) =
  match head (filter (λ u, user_email u = email) users) with
  | Some found => Some found
  | None => if decide (user_email u = email) then Some u else None
  end.
Proof.
  rewrite filter_app. destruct (filter _ users) as [|found l]; [|done].
  rewrite app_nil_l. destruct (decide (user_email u = email)).
  - by rewrite filter_cons_True.
  - by rewrite filter_cons_False.
Qed.

Lemma first_user_None (email : string) (users : list user) :
  (∀ u, u ∈ users → user_email u ≠ email) →
  head (filter (λ u, user_email u = email) users) = None.
Proof.
  intros Hnone. apply head_None, elem_of_nil_inv. intros u Hu.
  apply list_elem_of_filter in Hu as [Hemail Hu]. by apply (Hnone u).
Qed.

Lemma first_user_Some (email : string) (users : list user) :
  (∃ u, u ∈ users ∧ user_email u = email) →
  ∃ found, head (filter (λ u, user_email u = email) users) = Some found ∧
           found ∈ users ∧ user_email found = email.
Proof.
  intros (u & Hu & Hemail).
  destruct (filter (λ u, user_email u = email) users) as [|found l] eqn:Hf.
  - assert (u ∈ filter (λ u, user_email u = email) users) as Hin
      by by apply list_elem_of_filter.
    rewrite Hf in Hin. by apply elem_of_nil in Hin.
  - exists found. split; [done|].
    assert (found ∈ filter (λ u, user_email u = email) users) as Hin
      by (rewrite Hf; by left).
    apply list_elem_of_filter in Hin. tauto.
Qed.

End UsersLemmas.

(** X22. A registration can be logged into. When hashing and comparing
    agree (a password compares true with each of its hashes), the email
    is not yet registered and the new identifier is not in use,
    registration answers with that identifier and stores the hash of the
    password, and a login with the same email and password then gets the
    token signed for that identifier and email. *)
Theorem register_then_login (bcrypt_hash : string → N → string)
    (bcrypt_compare : string → string → bool)
    (jwt_sign : ObjectId → string → string)
    (email password : string) (fresh : ObjectId) (salt : N)
    (users : list user) :
  (∀ p s, bcrypt_compare p (bcrypt_hash p s) = true) →
  fresh ∉ user_id <$> users →
  (∀ u, u ∈ users → user_email u ≠ email) →
  users_post bcrypt_hash email password fresh salt users =
    (Ok (A_created "New user has been create has been created successfully"
           fresh),
     (users ++ [mkUser fresh email (bcrypt_hash password salt)])%list) ∧
  login bcrypt_compare jwt_sign email password
    (users ++ [mkUser fresh email (bcrypt_hash password salt)])%list =
    A_token (jwt_sign fresh email).
Proof.
  intros Hbcrypt Hfresh Hnew. split.
  - unfold users_post. by rewrite decide_False.
  - unfold login, generateAccessToken.
    rewrite first_user_appended, first_user_None by done. simpl.
    rewrite decide_True by done. simpl. by rewrite Hbcrypt.
Qed.

Lemma register_then_login_witness :
  login (λ p h, bool_decide (h = p)) (λ oid email, email) "ana@example.com"
    "rotiprata"
    (snd (users_post (λ p _, p) "ana@example.com" "rotiprata" 1%N 0%N [])) =
  A_token "ana@example.com".
Proof.
  destruct (register_then_login (λ p _, p) (λ p h, bool_decide (h = p))
              (λ oid email, email) "ana@example.com" "rotiprata" 1%N 0%N [])
    as [Hpost Hlogin].
  - intros p s. by apply bool_decide_eq_true.
  - apply not_elem_of_nil.
  - intros u Hu. by apply elem_of_nil in Hu.
  - rewrite Hpost. exact Hlogin.
Defined.

(** X23. The first registration of an email owns it. Registration does
    not look for the email: when the email is already registered and the
    new identifier is not in use, it still answers that a user was
    created, and yet every login with that email, whatever the password,
    is answered as it was before, from the first account with that
    email. *)
Theorem first_registration_wins (bcrypt_hash : string → N → string)
    (bcrypt_compare : string → string → bool)
    (jwt_sign : ObjectId → string → string)
    (email password : string) (fresh : ObjectId) (salt : N)
    (users : list user) :
  (∃ u, u ∈ users ∧ user_email u = email) →
  fresh ∉ user_id <$> users →
  ∃ users',
    users_post bcrypt_hash email password fresh salt users =
      (Ok (A_created
             "New user has been create has been created successfully" fresh),
       users') ∧
    List.length users' = S (List.length users) ∧
    ∀ p, login bcrypt_compare jwt_sign email p users' =
         login bcrypt_compare jwt_sign email p users.
Proof.
  intros Hold Hfresh. eexists. split.
  { unfold users_post. by rewrite decide_False. }
  split; [rewrite length_app; simpl; lia|].
  intros p. unfold login. rewrite first_user_appended.
  destruct (first_user_Some email users Hold) as (found & -> & _). done.
Qed.

Lemma first_registration_wins_witness :
  ∃ users',
    users_post (λ p _, p) "ana@example.com" "second" 2%N 0%N
      [mkUser 1%N "ana@example.com" "first"] =
      (Ok (A_created
             "New user has been create has been created successfully" 2%N),
       users') ∧
    login (λ p h, bool_decide (h = p)) (λ oid email, email)
      "ana@example.com" "second" users' =
    A_error 401 "Invalid login".
Proof.
  destruct (first_registration_wins (λ p _, p) (λ p h, bool_decide (h = p))
              (λ oid email, email) "ana@example.com" "second" 2%N 0%N
              [mkUser 1%N "ana@example.com" "first"])
    as (users' & Hpost & _ & Hlogin).
  - eexists. split; [by left | reflexivity].
  - vm_compute. set_solver.
  - exists users'. split; [exact Hpost|]. by rewrite Hlogin.
Defined.

(** X24. A token is only issued to a stored user whose hash compares. A
    login is answered either with 401 and the one message for both
    failures, or with the token signed for the identifier and email of a
    stored user who has that email and whose stored hash compares true
    with the password. *)
Theorem login_sound (bcrypt_compare : string → string → bool)
    (jwt_sign : ObjectId → string → string) (email password : string)
    (users : list user) :
  login bcrypt_compare jwt_sign email password users =
    A_error 401 "Invalid login" ∨
  ∃ u, u ∈ users ∧ user_email u = email ∧
       bcrypt_compare password (user_password u) = true ∧
       login bcrypt_compare jwt_sign email password users =
         A_token (jwt_sign (user_id u) email).
Proof.
  unfold login, generateAccessToken.
  destruct (head (filter _ users)) as [u|] eqn:Hhead; [|by left].
  assert (u ∈ filter (λ u, user_email u = email) users) as Hin.
  { destruct (filter _ users) as [|u' l]; [done|].
    injection Hhead as ->. by left. }
  apply list_elem_of_filter in Hin as [Hemail Hu].
  destruct (bcrypt_compare password (user_password u)) eqn:Hcmp; [|by left].
  right. exists u. by rewrite Hemail.
Qed.
